(** * go-tech-blog: the article repository over a relational store

    A shallow embedding of [repository/article_repository.go] and of the
    entity types it fills, followed by the properties the specification
    states about them.

    - [model] holds the entity structs ([model/writer.go] and the structs the
      repository scans rows into).
    - [sql] is the relational store: tables, and the meaning of the
      statements and queries the repository sends.
    - [go] is the world an operation runs in (database, open transaction,
      caller memory, clock, failures of the backend, log of calls) and the
      state monad over it.
    - [sqlx] is the handle [db] and its transactions.
    - [repository] holds the operations.
*)

From stdpp Require Import base option list gmap strings sorting.
From Stdlib Require Import ZArith.

Local Open Scope Z_scope.

(* ===================================================================== *)
(** ** Entities *)
(* ===================================================================== *)

Module model.

(** A [time.Time] value, as an instant on the time line at the resolution
    the store keeps. *)
Definition Time := Z.

(** A [*model.Article]: the address of an article struct in memory. *)
Definition ptr := positive.

Module Tag.
(** Modelled from the spec: the [model.Tag] struct (identity and label). *)
Record t := mk { ID : Z; Name : string }.
End Tag.

Module Writer.
(** [model/writer.go]; [Articles] carries the tag [db:"-"], so no query
    ever fills it. *)
Record t := mk { ID : Z; Name : string; Articles : list ptr }.
Definition zero : t := {| ID := 0; Name := ""; Articles := [] |}.
End Writer.

Module Article.
(** Modelled from the spec: the [model.Article] struct, with the fields
    section 3 of the specification lists. [WriterName] and [Tags] are
    filled by specific queries only. *)
Record t := mk {
  ID : Z;
  Title : string;
  Body : string;
  Created : Time;
  Updated : Time;
  Writer : Writer.t;
  WriterName : string;
  Tags : list Tag.t
}.

Definition set_Created (now : Time) (a : t) : t :=
  {| ID := ID a; Title := Title a; Body := Body a; Created := now;
     Updated := Updated a; Writer := Writer a;
     WriterName := WriterName a; Tags := Tags a |}.

Definition set_Updated (now : Time) (a : t) : t :=
  {| ID := ID a; Title := Title a; Body := Body a; Created := Created a;
     Updated := now; Writer := Writer a;
     WriterName := WriterName a; Tags := Tags a |}.

Definition set_Tags (tags : list Tag.t) (a : t) : t :=
  {| ID := ID a; Title := Title a; Body := Body a; Created := Created a;
     Updated := Updated a; Writer := Writer a;
     WriterName := WriterName a; Tags := tags |}.
End Article.

End model.

(* ===================================================================== *)
(** ** The persistence backend *)
(* ===================================================================== *)

Module sql.
Import model.

(** *** Tables *)

(** A row of [articles(id, title, body, created, updated, writer_id)];
    [writer_id] is nullable. *)
Record ArticleRow := mkArticleRow {
  r_id : Z;
  r_title : string;
  r_body : string;
  r_created : Time;
  r_updated : Time;
  r_writer_id : option Z
}.

(** A row of [writers(id, name)]. The repository coalesces [name], so the
    column is taken as nullable. *)
Record WriterRow := mkWriterRow {
  w_id : Z;
  w_name : option string
}.

(** Modelled from the spec: a row of the [tags] table (identity and label);
    no query of the article repository reads it. *)
Record TagRow := mkTagRow {
  t_id : Z;
  t_name : string
}.

#[global] Instance ArticleRow_eq_dec : EqDecision ArticleRow.
Proof. solve_decision. Defined.

(** The database: the tables in the backend's row order, the link table
    of (article id, tag id) pairs, and the AUTO_INCREMENT counter of
    [articles.id]. The schema is the one of section 6 of the specification;
    the columns of [articles] and [writers] are those the queries name. *)
Record DB := mkDB {
  articles : list ArticleRow;
  writers : list WriterRow;
  tags : list TagRow;
  article_tags : list (Z * Z);
  next_id : Z
}.

Definition set_articles (rows : list ArticleRow) (n : Z) (d : DB) : DB :=
  {| articles := rows; writers := writers d; tags := tags d;
     article_tags := article_tags d; next_id := n |}.

(** Every stored identity was handed out by the counter. *)
Definition wf_DB (d : DB) : Prop :=
  Forall (λ r, r_id r < next_id d) (articles d).

(** *** Errors and results *)

Inductive error :=
| ErrNoRows                      (* sql.ErrNoRows *)
| ErrTxDone                      (* sql.ErrTxDone *)
| ErrScanNull (column : string)  (* converting NULL to string is unsupported *)
| ErrBackend (code : Z).         (* connectivity or constraint failure *)

(** A Go pair [(T, error)] of which exactly one side is set. *)
Inductive result (A : Type) :=
| Ok (a : A)
| Err (e : error).
Arguments Ok {A} a.
Arguments Err {A} e.

(** [sql.Result]. *)
Record Result := mkResult { LastInsertId : Z; RowsAffected : Z }.

(** *** Statements *)

(** The three statements the repository executes, with their bound
    parameters. *)
Inductive Stmt :=
| InsertArticle (title body : string) (created updated : Time)
| UpdateArticle (title body : string) (updated : Time) (id : Z)
| DeleteArticle (id : Z).

Definition update_row (title body : string) (updated : Time)
    (r : ArticleRow) : ArticleRow :=
  {| r_id := r_id r; r_title := title; r_body := body;
     r_created := r_created r; r_updated := updated;
     r_writer_id := r_writer_id r |}.

Definition has_id (id : Z) (r : ArticleRow) : bool := bool_decide (r_id r = id).

(** Rows an UPDATE changed: those it matched and did not leave as they
    were. *)
Definition changed (id : Z) (f : ArticleRow → ArticleRow)
    (rows : list ArticleRow) : list ArticleRow :=
  filter (λ r, has_id id r = true ∧ f r ≠ r) rows.

Definition exec (s : Stmt) (d : DB) : DB * Result :=
  match s with
  | InsertArticle title body created updated =>
      let id := next_id d in
      let row := {| r_id := id; r_title := title; r_body := body;
                    r_created := created; r_updated := updated;
                    r_writer_id := None |} in
      (set_articles (articles d ++ [row]) (id + 1) d,
       {| LastInsertId := id; RowsAffected := 1 |})
  | UpdateArticle title body updated id =>
      let f := update_row title body updated in
      (set_articles ((λ r, if has_id id r then f r else r) <$> articles d)
                    (next_id d) d,
       {| LastInsertId := 0;
          RowsAffected := Z.of_nat (length (changed id f (articles d))) |})
  | DeleteArticle id =>
      (set_articles (filter (λ r, has_id id r = false) (articles d))
                    (next_id d) d,
       {| LastInsertId := 0;
          RowsAffected :=
            Z.of_nat (length (filter (λ r, has_id id r = true) (articles d))) |})
  end.

(** *** Queries *)

(** [ORDER BY id desc]. *)
Definition id_desc (r1 r2 : ArticleRow) : Prop := r_id r2 ≤ r_id r1.

#[global] Instance id_desc_dec : RelDecision id_desc.
Proof. intros r1 r2. unfold id_desc. apply _. Defined.

(** [INNER JOIN writers ON writers.id = articles.writer_id]: a NULL
    [writer_id] equals nothing. *)
Definition join_on (a : ArticleRow) (w : WriterRow) : bool :=
  match r_writer_id a with
  | Some k => bool_decide (w_id w = k)
  | None => false
  end.

Definition inner_join (d : DB) : list (ArticleRow * WriterRow) :=
  a ← articles d; w ← writers d; if join_on a w then [(a, w)] else [].

(** [COALESCE(x, '')]. *)
Definition COALESCE (x : option string) : string := default "" x.

(** The queries of the repository, indexed by the shape of a result row. *)
Inductive Query : Type → Type :=
| SelectByCursor (cursor : Z) : Query ArticleRow
| SelectByID (id : Z) : Query ArticleRow
| SelectWithWriterName (id : Z) : Query (Z * string * string)
| SelectWithWriter (id : Z) : Query (Z * string * Z * option string)
| SelectByWriterID (writerID : Z) : Query ArticleRow
| SelectIdTitle : Query (Z * string).

Definition run {X} (q : Query X) (d : DB) : list X :=
  match q in Query X return list X with
  | SelectByCursor cursor =>
      take 10 (merge_sort id_desc
                 (filter (λ r, r_id r < cursor) (articles d)))
  | SelectByID id =>
      filter (λ r, has_id id r = true) (articles d)
  | SelectWithWriterName id =>
      (λ aw, (r_id aw.1, r_title aw.1, COALESCE (w_name aw.2))) <$>
          (filter (λ aw, has_id id aw.1 = true ∧ is_Some (r_writer_id aw.1))
                  (inner_join d))
  | SelectWithWriter id =>
      (λ aw, (r_id aw.1, r_title aw.1, w_id aw.2, w_name aw.2)) <$>
          (filter (λ aw, has_id id aw.1 = true) (inner_join d))
  | SelectByWriterID writerID =>
      filter (λ r, r_writer_id r = Some writerID) (articles d)
  | SelectIdTitle =>
      (λ r, (r_id r, r_title r)) <$> articles d
  end.

End sql.

(* ===================================================================== *)
(** ** The world of an operation *)
(* ===================================================================== *)

Module go.
Import model sql.

(** What reaches the backend or a collaborator, in the order it happens. *)
Inductive Event :=
| EBegin
| EExec (s : Stmt)
| ECommit
| ERollback
| EQuery {X} (q : Query X)
| ETagListByArticleID (id : Z)
| ETagListMapByArticleIDs (ids : list Z).

(** - [db]: the committed database, what every read sees;
    - [tx]: the working copy of the open transaction, if any;
    - [heap]: the article structs of the caller;
    - [clock]: what [time.Now()] reads;
    - [fault_at n]: the failure, if any, of the [n]-th call to the backend;
    - [ncalls]: calls to the backend made so far;
    - [trace]: the log. *)
Record World := mkWorld {
  db : DB;
  tx : option DB;
  heap : gmap ptr Article.t;
  clock : Time;
  fault_at : nat → option error;
  ncalls : nat;
  trace : list Event
}.

Definition set_db (d : DB) (w : World) : World :=
  {| db := d; tx := tx w; heap := heap w; clock := clock w;
     fault_at := fault_at w; ncalls := ncalls w; trace := trace w |}.

Definition set_tx (t : option DB) (w : World) : World :=
  {| db := db w; tx := t; heap := heap w; clock := clock w;
     fault_at := fault_at w; ncalls := ncalls w; trace := trace w |}.

Definition set_heap (h : gmap ptr Article.t) (w : World) : World :=
  {| db := db w; tx := tx w; heap := h; clock := clock w;
     fault_at := fault_at w; ncalls := ncalls w; trace := trace w |}.

Definition log (ev : Event) (w : World) : World :=
  {| db := db w; tx := tx w; heap := heap w; clock := clock w;
     fault_at := fault_at w; ncalls := ncalls w; trace := trace w ++ [ev] |}.

Definition tick (w : World) : World :=
  {| db := db w; tx := tx w; heap := heap w; clock := clock w;
     fault_at := fault_at w; ncalls := S (ncalls w); trace := trace w |}.

Inductive panic :=
| NilDereference
| PanicError (e : error).

Inductive Outcome (A : Type) :=
| Return (a : A)
| Panic (p : panic).
Arguments Return {A} a.
Arguments Panic {A} p.

Definition M (A : Type) : Type := World → Outcome A * World.

#[global] Instance M_ret : MRet M := λ A a w, (Return a, w).

#[global] Instance M_bind : MBind M := λ A B k m w,
  match m w with
  | (Return a, w') => k a w'
  | (Panic p, w') => (Panic p, w')
  end.

Definition raise {A} (p : panic) : M A := λ w, (Panic p, w).

Definition gets {A} (f : World → A) : M A := λ w, (Return (f w), w).

Definition update (f : World → World) : M unit := λ w, (Return (), f w).

(** [time.Now()]. *)
Definition Now : M Time := gets clock.

(** Reading the struct a pointer refers to; a nil pointer panics. *)
Definition load (p : ptr) : M Article.t := λ w,
  match heap w !! p with
  | Some a => (Return a, w)
  | None => (Panic NilDereference, w)
  end.

(** A field assignment through the pointer. *)
Definition modify (p : ptr) (f : Article.t → Article.t) : M unit := λ w,
  match heap w !! p with
  | Some a => (Return (), set_heap (<[p := f a]> (heap w)) w)
  | None => (Panic NilDereference, w)
  end.

(** One call to the backend: it is logged and counted, and it reports the
    failure the world holds for it. *)
Definition call (ev : Event) : M (option error) := λ w,
  (Return (fault_at w (ncalls w)), tick (log ev w)).

(** The next [k] calls to the backend do not fail. *)
Definition healthy (k : nat) (w : World) : Prop :=
  ∀ i : nat, (i < k)%nat → fault_at w (ncalls w + i)%nat = None.

End go.

(* ===================================================================== *)
(** ** The handle and its transactions *)
(* ===================================================================== *)

Module sqlx.
Import model sql go.

(** How a result row of shape [X] fills a [model.Article] through the [db]
    tags; fields without a column keep their zero value. *)
Class StructScan (X : Type) := scan : X → result Article.t.

(** [SELECT *] over [articles]. *)
Definition of_row (r : ArticleRow) : Article.t :=
  {| Article.ID := r_id r; Article.Title := r_title r;
     Article.Body := r_body r; Article.Created := r_created r;
     Article.Updated := r_updated r; Article.Writer := Writer.zero;
     Article.WriterName := ""; Article.Tags := [] |}.

#[global] Instance scan_row : StructScan ArticleRow := λ r, Ok (of_row r).

(** [id, title]. *)
Definition of_id_title (id : Z) (title : string) : Article.t :=
  {| Article.ID := id; Article.Title := title;
     Article.Body := ""; Article.Created := 0; Article.Updated := 0;
     Article.Writer := Writer.zero; Article.WriterName := "";
     Article.Tags := [] |}.

#[global] Instance scan_id_title : StructScan (Z * string) :=
  λ '(id, title), Ok (of_id_title id title).

(** [id, title, writer_name]. *)
Definition of_writer_name (id : Z) (title name : string) : Article.t :=
  {| Article.ID := id; Article.Title := title;
     Article.Body := ""; Article.Created := 0; Article.Updated := 0;
     Article.Writer := Writer.zero; Article.WriterName := name;
     Article.Tags := [] |}.

#[global] Instance scan_writer_name : StructScan (Z * string * string) :=
  λ '(id, title, name), Ok (of_writer_name id title name).

(** [id, title, writer.id, writer.name]; [Writer.Name] is a Go [string],
    into which a NULL cannot be scanned. *)
Definition of_writer (id : Z) (title : string) (wid : Z) (name : string)
    : Article.t :=
  {| Article.ID := id; Article.Title := title;
     Article.Body := ""; Article.Created := 0; Article.Updated := 0;
     Article.Writer :=
       {| Writer.ID := wid; Writer.Name := name; Writer.Articles := [] |};
     Article.WriterName := ""; Article.Tags := [] |}.

#[global] Instance scan_writer : StructScan (Z * string * Z * option string) :=
  λ '(id, title, wid, oname),
  match oname with
  | Some name => Ok (of_writer id title wid name)
  | None => Err (ErrScanNull "writer.name")
  end.

Fixpoint scan_all {X} `{StructScan X} (rows : list X) : result (list Article.t) :=
  match rows with
  | [] => Ok []
  | x :: rows' =>
      match scan x with
      | Err e => Err e
      | Ok a =>
          match scan_all rows' with
          | Err e => Err e
          | Ok l => Ok (a :: l)
          end
      end
  end.

(** [db.Get(&article, query, args...)]: the first row, or [sql.ErrNoRows]. *)
Definition Get {X} `{StructScan X} (q : Query X) : M (result Article.t) :=
  f ← call (EQuery q);
  match f with
  | Some e => mret (Err e)
  | None =>
      d ← gets db;
      match run q d with
      | [] => mret (Err ErrNoRows)
      | x :: _ => mret (scan x)
      end
  end.

(** [db.Select(&articles, query, args...)]: every row. *)
Definition Select {X} `{StructScan X} (q : Query X) : M (result (list Article.t)) :=
  f ← call (EQuery q);
  match f with
  | Some e => mret (Err e)
  | None => d ← gets db; mret (scan_all (run q d))
  end.

(** [db.MustBegin()]: opens a transaction on the committed state, and
    panics when the backend refuses. *)
Definition MustBegin : M unit :=
  f ← call EBegin;
  match f with
  | Some e => raise (PanicError e)
  | None => d ← gets db; update (set_tx (Some d))
  end.

(** [tx.Exec] and [tx.NamedExec]: a failed statement leaves the working
    copy as it was. *)
Definition Exec (s : Stmt) : M (result Result) :=
  f ← call (EExec s);
  match f with
  | Some e => mret (Err e)
  | None =>
      t ← gets tx;
      match t with
      | Some d => update (set_tx (Some (exec s d).1));; mret (Ok (exec s d).2)
      | None => mret (Err ErrTxDone)
      end
  end.

(** [tx.NamedExec(query, article)]: the statement with its named
    parameters bound from the struct behind the pointer. *)
Definition NamedExec (query : Article.t → Stmt) (article : ptr) : M (result Result) :=
  a ← load article;
  Exec (query a).

(** [tx.Rollback()]: the working copy is dropped whatever the call
    reports. *)
Definition Rollback : M (option error) :=
  f ← call ERollback;
  update (set_tx None);;
  mret f.

(** [tx.Commit()]: the working copy becomes the committed state, unless
    the call fails. *)
Definition Commit : M (option error) :=
  f ← call ECommit;
  t ← gets tx;
  match f, t with
  | Some e, _ => update (set_tx None);; mret (Some e)
  | None, Some d => update (set_db d);; update (set_tx None);; mret None
  | None, None => mret (Some ErrTxDone)
  end.

End sqlx.

(* ===================================================================== *)
(** ** The tag association store *)
(* ===================================================================== *)

Module tag_repository.
Import model sql.

(** Modelled from the spec: the tags the link table attaches to an
    article. *)
Definition tags_of (d : DB) (id : Z) : list Tag.t :=
  l ← article_tags d;
  if bool_decide (l.1 = id)
  then t ← tags d;
       if bool_decide (t_id t = l.2)
       then [{| Tag.ID := t_id t; Tag.Name := t_name t |}] else []
  else [].

(** Modelled from the spec: [TagListByArticleID], the tags linked to one
    article. *)
Definition TagListByArticleID (id : Z) (d : DB) : result (list Tag.t) :=
  Ok (tags_of d id).

(** Modelled from the spec: [TagListMapByArticleIDs], the tags of the
    requested articles keyed by article id. An article without a link row
    has no key. *)
Definition TagListMapByArticleIDs (ids : list Z) (d : DB)
    : result (gmap Z (list Tag.t)) :=
  Ok (list_to_map
        (omap (λ id, match tags_of d id with
                     | [] => None
                     | ts => Some (id, ts)
                     end) ids)).

End tag_repository.

(* ===================================================================== *)
(** ** The article repository *)
(* ===================================================================== *)

Module repository.
Import model sql go sqlx.

(** [math.MaxInt32]. *)
Definition MaxInt32 : Z := 2147483647.

(** [INSERT INTO articles (title, body, created, updated)
     VALUES (:title, :body, :created, :updated);] *)
Definition insert_article (a : Article.t) : Stmt :=
  InsertArticle (Article.Title a) (Article.Body a)
                (Article.Created a) (Article.Updated a).

(** [UPDATE articles SET title = :title, body = :body, updated = :updated
     WHERE id = :id;] *)
Definition update_article (a : Article.t) : Stmt :=
  UpdateArticle (Article.Title a) (Article.Body a) (Article.Updated a)
                (Article.ID a).

Definition ArticleCreate (article : ptr) : M (result Result) :=
  now ← Now;
  modify article (Article.set_Created now);;
  modify article (Article.set_Updated now);;
  MustBegin;;
  r ← NamedExec insert_article article;
  match r with
  | Err e => Rollback;; mret (Err e)
  | Ok res => Commit;; mret (Ok res)
  end.

Definition ArticleListByCursor (cursor : Z) : M (result (list Article.t)) :=
  let cursor := if bool_decide (cursor ≤ 0) then MaxInt32 else cursor in
  Select (SelectByCursor cursor).

Definition ArticleDelete (id : Z) : M (option error) :=
  MustBegin;;
  r ← Exec (DeleteArticle id);
  match r with
  | Err e => Rollback;; mret (Some e)
  | Ok _ => Commit
  end.

Definition ArticleGetByID (id : Z) : M (result Article.t) :=
  Get (SelectByID id).

Definition ArticleUpdate (article : ptr) : M (result Result) :=
  now ← Now;
  modify article (Article.set_Updated now);;
  MustBegin;;
  r ← NamedExec update_article article;
  match r with
  | Err e => Rollback;; mret (Err e)
  | Ok res => Commit;; mret (Ok res)
  end.

Definition ArticleGetWithWriterName (id : Z) : M (result Article.t) :=
  Get (SelectWithWriterName id).

Definition ArticleGetWithWriter (id : Z) : M (result Article.t) :=
  Get (SelectWithWriter id).

Definition ArticleListByWriterID (writerID : Z) : M (result (list Article.t)) :=
  Select (SelectByWriterID writerID).

Section tags.
(** The two operations of the tag association store: reads of the
    database that answer with a value or an error. *)
Variable TagListByArticleID : Z → DB → result (list Tag.t).
Variable TagListMapByArticleIDs : list Z → DB → result (gmap Z (list Tag.t)).

Definition call_TagListByArticleID (id : Z) : M (result (list Tag.t)) :=
  update (log (ETagListByArticleID id));;
  d ← gets db;
  mret (TagListByArticleID id d).

Definition call_TagListMapByArticleIDs (ids : list Z)
    : M (result (gmap Z (list Tag.t))) :=
  update (log (ETagListMapByArticleIDs ids));;
  d ← gets db;
  mret (TagListMapByArticleIDs ids d).

Definition ArticleGetWithTags (id : Z) : M (result Article.t) :=
  r ← ArticleGetByID id;
  match r with
  | Err e => mret (Err e)
  | Ok article =>
      t ← call_TagListByArticleID id;
      match t with
      | Err e => mret (Err e)
      | Ok tags => mret (Ok (Article.set_Tags tags article))
      end
  end.

(** Indexing a Go map with a key it does not hold yields the zero value,
    here the nil slice. *)
Definition index (m : gmap Z (list Tag.t)) (k : Z) : list Tag.t :=
  default [] (m !! k).

Definition ArticleListWithTags : M (result (list Article.t)) :=
  r ← Select SelectIdTitle;
  match r with
  | Err e => mret (Err e)
  | Ok articles =>
      let articleIDs := Article.ID <$> articles in
      t ← call_TagListMapByArticleIDs articleIDs;
      match t with
      | Err e => mret (Err e)
      | Ok tagListMap =>
          mret (Ok (fmap (λ article,
                           Article.set_Tags (index tagListMap (Article.ID article))
                                            article)
                        articles))
      end
  end.
End tags.

End repository.

(* ===================================================================== *)
(** ** Vocabulary of the properties, and sample data *)
(* ===================================================================== *)

Module props.
Import model sql go sqlx repository.

(** A mutating operation [op] that sends the statement [s] is all or
    nothing: when the statement fails with [e] the transaction is rolled
    back, the committed database is what it was and [e] itself comes back;
    otherwise the transaction is committed, and the database is either the
    statement's result or, had the commit failed, what it was. In both
    cases the backend sees one BEGIN, the statement once, and one closing
    call. *)
Definition atomic {A} (op : M A) (failure : error → A) (s : Stmt)
    (w : World) : Prop :=
  match fault_at w (S (ncalls w)) with
  | Some e =>
      ∃ w', op w = (Return (failure e), w') ∧
            db w' = db w ∧ tx w' = None ∧
            trace w' = trace w ++ [EBegin; EExec s; ERollback]
  | None =>
      ∃ r w', op w = (Return r, w') ∧
              (db w' = (exec s (db w)).1 ∨ db w' = db w) ∧ tx w' = None ∧
              trace w' = trace w ++ [EBegin; EExec s; ECommit]
  end.

(** The effective cursor of [ArticleListByCursor]. *)
Definition effective (cursor : Z) : Z :=
  if bool_decide (cursor ≤ 0) then MaxInt32 else cursor.

(** Row identities are unique in both tables. *)
Definition unique_ids (d : DB) : Prop :=
  NoDup (r_id <$> articles d) ∧ NoDup (w_id <$> writers d).

(** A read: it makes one call to the backend and changes nothing else. *)
Definition reads_once {A} (op : M A) (q : Event) (w : World) : Prop :=
  db (op w).2 = db w ∧ tx (op w).2 = tx w ∧ heap (op w).2 = heap w ∧
  ncalls (op w).2 = S (ncalls w) ∧ trace (op w).2 = trace w ++ [q].

(** The first [n] rows below a cursor, by descending identity: what the
    query of [ArticleListByCursor] would select with [LIMIT n]. *)
Definition below (n : nat) (c : Z) (d : DB) : list ArticleRow :=
  take n (merge_sort id_desc (filter (λ r, r_id r < c) (articles d))).

(** Identities are unique and were handed out by the counter. *)
Definition sound (d : DB) : Prop := wf_DB d ∧ unique_ids d.

(** The article [a] carries the columns of the row [r]. *)
Definition shows (a : Article.t) (r : ArticleRow) : Prop :=
  Article.ID a = r_id r ∧ Article.Title a = r_title r ∧
  Article.Body a = r_body r ∧ Article.Created a = r_created r ∧
  Article.Updated a = r_updated r.

(** The fields no column of [articles] fills are at their zero values. *)
Definition unjoined (a : Article.t) : Prop :=
  Article.Writer a = Writer.zero ∧ Article.WriterName a = "" ∧
  Article.Tags a = [].

(** The identities on a page an operation returned. *)
Definition page_ids (o : Outcome (result (list Article.t))) : option (list Z) :=
  match o with
  | Return (Ok l) => Some (Article.ID <$> l)
  | _ => None
  end.

End props.

Module sample.
Import model sql go.

(** A backend whose [n]-th call fails with [e]. *)
Definition failing (n : nat) (e : error) : nat → option error :=
  λ i, if bool_decide (i = n) then Some e else None.

Definition reliable : nat → option error := λ _, None.

Definition blog : DB :=
  {| articles :=
       [ mkArticleRow 1 "Hello" "first post" 100 100 (Some 7);
         mkArticleRow 2 "Draft" "no writer yet" 100 100 None;
         mkArticleRow 3 "Guest" "writer without a name" 100 100 (Some 8);
         mkArticleRow 4 "Anon" "writer with an empty name" 100 100 (Some 9) ];
     writers :=
       [ mkWriterRow 7 (Some "gopher"); mkWriterRow 8 None;
         mkWriterRow 9 (Some "") ];
     tags := [ mkTagRow 1 "go"; mkTagRow 2 "sql" ];
     article_tags := [ (1, 1); (1, 2); (3, 2) ];
     next_id := 5 |}.

(** The same blog once every writer has a name. *)
Definition named : DB :=
  {| articles := articles blog;
     writers :=
       [ mkWriterRow 7 (Some "gopher"); mkWriterRow 8 (Some "guest");
         mkWriterRow 9 (Some "") ];
     tags := tags blog; article_tags := article_tags blog;
     next_id := next_id blog |}.

(** A blog without articles. *)
Definition empty : DB :=
  {| articles := []; writers := writers blog; tags := tags blog;
     article_tags := []; next_id := 1 |}.

(** A blog whose counter reached the largest 32-bit identity. *)
Definition late : DB :=
  {| articles := [ mkArticleRow 7 "Old" "an early post" 100 100 None ];
     writers := []; tags := []; article_tags := []; next_id := 2147483647 |}.

(** A tag store that is down. *)
Definition no_tag_store {A} : Z → DB → result A := λ _ _, Err (ErrBackend 2002).
Definition no_tag_map {A} : list Z → DB → result A := λ _ _, Err (ErrBackend 2002).

(** Fifteen articles with the identities 1 to 15, stored out of order. *)
Definition fifteen : DB :=
  {| articles :=
       (λ i, mkArticleRow i "title" "body" 100 100 None) <$>
         [3; 1; 2; 5; 4; 8; 7; 6; 9; 15; 14; 13; 12; 11; 10];
     writers := []; tags := []; article_tags := []; next_id := 16 |}.

(** The struct a caller passes to Create or Update: it names article 1 and
    carries timestamps of the caller's own. *)
Definition draft : Article.t :=
  {| Article.ID := 1; Article.Title := "Hello again";
     Article.Body := "second thoughts"; Article.Created := 1; Article.Updated := 2;
     Article.Writer := Writer.zero; Article.WriterName := ""; Article.Tags := [] |}.

(** A struct naming an article no sample database holds. *)
Definition stranger : Article.t :=
  {| Article.ID := 99; Article.Title := "Nobody"; Article.Body := "nothing";
     Article.Created := 0; Article.Updated := 0;
     Article.Writer := Writer.zero; Article.WriterName := ""; Article.Tags := [] |}.

(** The world of a caller holding [a] behind the pointer 1. *)
Definition world_of (a : Article.t) (d : DB) (now : Time)
    (faults : nat → option error) : World :=
  {| db := d; tx := None; heap := {[ 1%positive := a ]}; clock := now;
     fault_at := faults; ncalls := 0; trace := [] |}.

Definition world (d : DB) (now : Time) (faults : nat → option error) : World :=
  {| db := d; tx := None; heap := {[ 1%positive := draft ]}; clock := now;
     fault_at := faults; ncalls := 0; trace := [] |}.

End sample.

(* ===================================================================== *)
(** ** Running the monad *)
(* ===================================================================== *)

Import model sql go sqlx repository props.

Lemma healthy_0 k w : healthy (S k) w → fault_at w (ncalls w) = None.
Proof. intros H. rewrite <- (Nat.add_0_r (ncalls w)). apply H. lia. Qed.

Lemma healthy_1 k w : healthy (S (S k)) w → fault_at w (S (ncalls w)) = None.
Proof. intros H. rewrite <- Nat.add_1_r. apply H. lia. Qed.

Lemma healthy_2 k w : healthy (S (S (S k))) w → fault_at w (S (S (ncalls w))) = None.
Proof.
  intros H. replace (S (S (ncalls w))) with (ncalls w + 2)%nat by lia.
  apply H. lia.
Qed.

Lemma healthy_3 k w :
  healthy (S (S (S (S k)))) w → fault_at w (S (S (S (ncalls w)))) = None.
Proof.
  intros H. replace (S (S (S (ncalls w)))) with (ncalls w + 3)%nat by lia.
  apply H. lia.
Qed.

Lemma healthy_reliable d now k : healthy k (sample.world d now sample.reliable).
Proof. intros i _. reflexivity. Qed.

(** Case analysis on a row known to be in a table written out in full. *)
Ltac rows_of H :=
  cbn in H;
  repeat (apply elem_of_cons in H as [->|H]);
  [..| by apply elem_of_nil in H].

(** Unfolds an operation down to the world it returns. *)
Ltac step :=
  unfold ArticleCreate, ArticleUpdate, ArticleDelete, ArticleGetByID,
    ArticleGetWithWriterName, ArticleGetWithWriter, ArticleListByCursor,
    NamedExec, MustBegin, Exec, Rollback, Commit, Get, Select, Now, load,
    modify, raise;
  unfold mbind, M_bind, mret, M_ret, call, gets, update; cbn.

(* ===================================================================== *)
(** ** Transactions *)
(* ===================================================================== *)

Lemma ArticleCreate_atomic w article a :
  fault_at w (ncalls w) = None → heap w !! article = Some a →
  atomic (ArticleCreate article) Err
         (InsertArticle (Article.Title a) (Article.Body a) (clock w) (clock w)) w.
Proof.
  intros H0 Ha. unfold atomic. step. rewrite Ha. cbn.
  rewrite lookup_insert_eq. cbn. rewrite H0. cbn.
  rewrite insert_insert_eq, lookup_insert_eq. cbn.
  destruct (fault_at w (S (ncalls w))) as [e|]; cbn.
  - eexists. split; [reflexivity|]. cbn. by rewrite <- !app_assoc.
  - destruct (fault_at w (S (S (ncalls w)))); cbn;
      do 2 eexists; (split; [reflexivity|]); cbn; rewrite <- !app_assoc; auto.
Qed.

Lemma ArticleUpdate_atomic w article a :
  fault_at w (ncalls w) = None → heap w !! article = Some a →
  atomic (ArticleUpdate article) Err
         (UpdateArticle (Article.Title a) (Article.Body a) (clock w) (Article.ID a)) w.
Proof.
  intros H0 Ha. unfold atomic. step. rewrite Ha. cbn. rewrite H0. cbn.
  rewrite lookup_insert_eq. cbn.
  destruct (fault_at w (S (ncalls w))) as [e|]; cbn.
  - eexists. split; [reflexivity|]. cbn. by rewrite <- !app_assoc.
  - destruct (fault_at w (S (S (ncalls w)))); cbn;
      do 2 eexists; (split; [reflexivity|]); cbn; rewrite <- !app_assoc; auto.
Qed.

Lemma ArticleDelete_atomic w id :
  fault_at w (ncalls w) = None →
  atomic (ArticleDelete id) Some (DeleteArticle id) w.
Proof.
  intros H0. unfold atomic. step. rewrite H0. cbn.
  destruct (fault_at w (S (ncalls w))) as [e|]; cbn.
  - eexists. split; [reflexivity|]. cbn. by rewrite <- !app_assoc.
  - destruct (fault_at w (S (S (ncalls w)))); cbn;
      do 2 eexists; (split; [reflexivity|]); cbn; rewrite <- !app_assoc; auto.
Qed.

(** C5. In Create, Update and Delete, once the transaction is open, a
    failure of the statement is followed by a rollback and then returned as
    it is, with the committed database untouched; the commit is issued only
    when the statement succeeded; the statement is sent exactly once. *)
Theorem mutations_are_atomic (w : World) (article : ptr) (a : Article.t) (id : Z) :
  fault_at w (ncalls w) = None →
  heap w !! article = Some a →
  atomic (ArticleCreate article) Err
         (InsertArticle (Article.Title a) (Article.Body a) (clock w) (clock w)) w ∧
  atomic (ArticleUpdate article) Err
         (UpdateArticle (Article.Title a) (Article.Body a) (clock w) (Article.ID a)) w ∧
  atomic (ArticleDelete id) Some (DeleteArticle id) w.
Proof.
  intros H0 Ha.
  auto using ArticleCreate_atomic, ArticleUpdate_atomic, ArticleDelete_atomic.
Qed.

Lemma mutations_are_atomic_witness :
  let w := sample.world sample.blog 200 (sample.failing 1 (ErrBackend 1205)) in
  atomic (ArticleCreate 1%positive) Err
         (InsertArticle "Hello again" "second thoughts" 200 200) w ∧
  atomic (ArticleUpdate 1%positive) Err
         (UpdateArticle "Hello again" "second thoughts" 200 1) w ∧
  atomic (ArticleDelete 3) Some (DeleteArticle 3) w.
Proof.
  exact (mutations_are_atomic
           (sample.world sample.blog 200 (sample.failing 1 (ErrBackend 1205)))
           1%positive sample.draft 3 eq_refl eq_refl).
Defined.

(** C8. When the statement succeeds and the commit fails, ArticleDelete
    returns the commit's error, while ArticleCreate and ArticleUpdate return
    the statement's result with no error, although nothing was committed. *)
Theorem commit_failure_reaches_the_caller_of_delete_only
    (w : World) (article : ptr) (a : Article.t) (id : Z) (e : error) :
  healthy 2 w →
  fault_at w (S (S (ncalls w))) = Some e →
  heap w !! article = Some a →
  let insert := InsertArticle (Article.Title a) (Article.Body a) (clock w) (clock w) in
  let update := UpdateArticle (Article.Title a) (Article.Body a) (clock w) (Article.ID a) in
  (ArticleDelete id w).1 = Return (Some e) ∧
  (ArticleCreate article w).1 = Return (Ok (exec insert (db w)).2) ∧
  (ArticleUpdate article w).1 = Return (Ok (exec update (db w)).2) ∧
  db (ArticleDelete id w).2 = db w ∧
  db (ArticleCreate article w).2 = db w ∧
  db (ArticleUpdate article w).2 = db w ∧
  trace (ArticleDelete id w).2 = trace w ++ [EBegin; EExec (DeleteArticle id); ECommit] ∧
  trace (ArticleCreate article w).2 = trace w ++ [EBegin; EExec insert; ECommit] ∧
  trace (ArticleUpdate article w).2 = trace w ++ [EBegin; EExec update; ECommit].
Proof.
  intros H He Ha insert update. subst insert update.
  pose proof (healthy_0 _ _ H) as H0. pose proof (healthy_1 _ _ H) as H1.
  step. rewrite Ha. cbn. rewrite !lookup_insert_eq. cbn. rewrite H0. cbn.
  rewrite insert_insert_eq, !lookup_insert_eq. cbn. rewrite H1. cbn.
  rewrite He. cbn. rewrite <- !app_assoc. cbn. repeat split.
Qed.

Lemma commit_failure_reaches_the_caller_of_delete_only_witness :
  let w := sample.world sample.blog 200 (sample.failing 2 (ErrBackend 2013)) in
  (ArticleDelete 3 w).1 = Return (Some (ErrBackend 2013)) ∧
  (ArticleCreate 1%positive w).1
    = Return (Ok {| LastInsertId := 5; RowsAffected := 1 |}) ∧
  (ArticleUpdate 1%positive w).1
    = Return (Ok {| LastInsertId := 0; RowsAffected := 1 |}) ∧
  db (ArticleCreate 1%positive w).2 = sample.blog.
Proof.
  assert (healthy 2 (sample.world sample.blog 200
                       (sample.failing 2 (ErrBackend 2013)))) as Hh.
  { intros i Hi. destruct i as [|[|i]]; [reflexivity | reflexivity | lia]. }
  pose proof (commit_failure_reaches_the_caller_of_delete_only
                (sample.world sample.blog 200 (sample.failing 2 (ErrBackend 2013)))
                1%positive sample.draft 3 (ErrBackend 2013) Hh eq_refl eq_refl)
    as (Hd & Hc & Hu & _ & Hdb & _).
  exact (conj Hd (conj Hc (conj Hu Hdb))).
Defined.

(** C9. ArticleCreate overwrites Created and Updated of the caller's struct
    with the clock reading, and ArticleUpdate overwrites Updated, before the
    statement is sent: after the call the struct holds the reading in these
    fields and its other fields as they were, whatever the backend does, in
    particular when the statement fails and its error is returned; and the
    statement that was sent carries the reading. *)
Theorem caller_struct_is_stamped (w : World) (article : ptr) (a : Article.t) :
  heap w !! article = Some a →
  let now := clock w in
  (∃ a', heap (ArticleCreate article w).2 !! article = Some a' ∧
         Article.Created a' = now ∧ Article.Updated a' = now ∧
         Article.ID a' = Article.ID a ∧ Article.Title a' = Article.Title a ∧
         Article.Body a' = Article.Body a ∧
         Article.Writer a' = Article.Writer a ∧
         Article.WriterName a' = Article.WriterName a ∧
         Article.Tags a' = Article.Tags a) ∧
  (∃ a', heap (ArticleUpdate article w).2 !! article = Some a' ∧
         Article.Updated a' = now ∧ Article.Created a' = Article.Created a ∧
         Article.ID a' = Article.ID a ∧ Article.Title a' = Article.Title a ∧
         Article.Body a' = Article.Body a ∧
         Article.Writer a' = Article.Writer a ∧
         Article.WriterName a' = Article.WriterName a ∧
         Article.Tags a' = Article.Tags a) ∧
  (fault_at w (ncalls w) = None →
     trace (ArticleCreate article w).2 !! S (length (trace w))
       = Some (EExec (InsertArticle (Article.Title a) (Article.Body a) now now)) ∧
     trace (ArticleUpdate article w).2 !! S (length (trace w))
       = Some (EExec (UpdateArticle (Article.Title a) (Article.Body a) now
                                    (Article.ID a)))) ∧
  (∀ e, fault_at w (ncalls w) = None → fault_at w (S (ncalls w)) = Some e →
     (ArticleCreate article w).1 = Return (Err e) ∧
     (ArticleUpdate article w).1 = Return (Err e)).
Proof.
  intros Ha now. subst now.
  step. rewrite Ha. cbn. rewrite !lookup_insert_eq. cbn.
  rewrite insert_insert_eq.
  destruct (fault_at w (ncalls w)) as [e0|] eqn:H0; cbn.
  { rewrite !lookup_insert_eq.
    split; [eexists; split; [reflexivity | done]|].
    split; [eexists; split; [reflexivity | done]|].
    split; intros; congruence. }
  rewrite !lookup_insert_eq. cbn.
  destruct (fault_at w (S (ncalls w))) as [e1|] eqn:H1; cbn.
  - rewrite !lookup_insert_eq. rewrite <- !app_assoc. cbn.
    split; [eexists; split; [reflexivity | done]|].
    split; [eexists; split; [reflexivity | done]|].
    split; [|intros; split; congruence].
    intros _.
    split;
      by rewrite lookup_app_r by lia;
         replace (S (length (trace w)) - length (trace w))%nat with 1%nat by lia.
  - destruct (fault_at w (S (S (ncalls w)))); cbn;
      rewrite !lookup_insert_eq; rewrite <- !app_assoc; cbn;
      (split; [eexists; split; [reflexivity | done]|]);
      (split; [eexists; split; [reflexivity | done]|]);
      (split; [|intros; congruence]);
      intros _;
      split;
        by rewrite lookup_app_r by lia;
           replace (S (length (trace w)) - length (trace w))%nat with 1%nat by lia.
Qed.

Lemma caller_struct_is_stamped_witness :
  let w := sample.world sample.blog 200 (sample.failing 1 (ErrBackend 1205)) in
  (∃ a', heap (ArticleCreate 1%positive w).2 !! 1%positive = Some a' ∧
         Article.Created a' = 200 ∧ Article.Updated a' = 200 ∧
         Article.Title a' = "Hello again") ∧
  (∃ a', heap (ArticleUpdate 1%positive w).2 !! 1%positive = Some a' ∧
         Article.Updated a' = 200 ∧ Article.Created a' = 1 ∧
         Article.Title a' = "Hello again") ∧
  trace (ArticleCreate 1%positive w).2 !! 1%nat
    = Some (EExec (InsertArticle "Hello again" "second thoughts" 200 200)) ∧
  trace (ArticleUpdate 1%positive w).2 !! 1%nat
    = Some (EExec (UpdateArticle "Hello again" "second thoughts" 200 1)) ∧
  (ArticleCreate 1%positive w).1 = Return (Err (ErrBackend 1205)) ∧
  (ArticleUpdate 1%positive w).1 = Return (Err (ErrBackend 1205)).
Proof.
  intros w.
  pose proof (caller_struct_is_stamped w 1%positive sample.draft eq_refl)
    as (Hc & Hu & Hsent & He).
  destruct Hc as (ac & Hac & Hcc & Hcu & _ & Hct & _).
  destruct Hu as (au & Hau & Huu & Huc & _ & Hut & _).
  destruct (Hsent eq_refl) as [Hsc Hsu].
  destruct (He (ErrBackend 1205) eq_refl eq_refl) as [Hce Hue].
  split; [exists ac; exact (conj Hac (conj Hcc (conj Hcu Hct)))|].
  split; [exists au; exact (conj Hau (conj Huu (conj Huc Hut)))|].
  exact (conj Hsc (conj Hsu (conj Hce Hue))).
Defined.

(* ===================================================================== *)
(** ** Statements *)
(* ===================================================================== *)

Lemma has_id_true id r : has_id id r = true ↔ r_id r = id.
Proof. unfold has_id. by rewrite bool_decide_eq_true. Qed.

Lemma has_id_false id r : has_id id r = false ↔ r_id r ≠ id.
Proof. unfold has_id. by rewrite bool_decide_eq_false. Qed.

(** No statement breaks the link between stored identities and the
    counter. *)
Lemma exec_wf s d : wf_DB d → wf_DB (exec s d).1.
Proof.
  unfold wf_DB. intros Hwf. destruct s as [t b c u | t b u id | id]; cbn.
  - apply Forall_app. split.
    + eapply Forall_impl; [exact Hwf|]. cbn. intros r Hr. lia.
    + repeat constructor. cbn. lia.
  - apply Forall_fmap. eapply Forall_impl; [exact Hwf|].
    intros r Hr. cbn. by destruct (has_id id r).
  - rewrite Forall_forall in Hwf |- *. intros r Hr.
    apply list_elem_of_filter in Hr as [_ Hr]. by apply Hwf.
Qed.

Lemma wf_fresh d r : wf_DB d → r ∈ articles d → r_id r ≠ next_id d.
Proof.
  unfold wf_DB. rewrite Forall_forall. intros Hwf Hr.
  specialize (Hwf r Hr). lia.
Qed.

Lemma filter_none {A} (P : A → Prop) `{∀ x, Decision (P x)} (l : list A) :
  (∀ x, x ∈ l → ¬ P x) → filter P l = [].
Proof.
  induction l as [|x l IH]; intros Hl; [done|].
  rewrite filter_cons_False by (apply Hl; left).
  apply IH. intros y Hy. apply Hl. by right.
Qed.

Lemma filter_all {A} (P : A → Prop) `{∀ x, Decision (P x)} (l : list A) :
  (∀ x, x ∈ l → P x) → filter P l = l.
Proof.
  induction l as [|x l IH]; intros Hl; [done|].
  rewrite filter_cons_True by (apply Hl; left).
  f_equal. apply IH. intros y Hy. apply Hl. by right.
Qed.

(** The row an INSERT adds is the only one under its identity. *)
Lemma select_inserted d t b c u :
  wf_DB d →
  run (SelectByID (next_id d)) (exec (InsertArticle t b c u) d).1
    = [mkArticleRow (next_id d) t b c u None].
Proof.
  intros Hwf. cbn [run exec fst articles set_articles]. rewrite filter_app.
  rewrite (filter_none _ (articles d)).
  - rewrite app_nil_l, filter_cons_True by (by apply has_id_true). done.
  - intros r Hr. rewrite has_id_true. by apply wf_fresh.
Qed.

(** A read that reaches the backend answers from the committed database and
    changes nothing but the log. *)
Lemma Get_healthy {X} `{StructScan X} (q : Query X) w :
  fault_at w (ncalls w) = None →
  Get q w = (Return (match run q (db w) with
                     | [] => Err ErrNoRows
                     | x :: _ => scan x
                     end),
             tick (log (EQuery q) w)).
Proof.
  intros H0. unfold Get, mbind, M_bind, mret, M_ret, call, gets. rewrite H0.
  cbn. by destruct (run q (db w)).
Qed.

Lemma Select_healthy {X} `{StructScan X} (q : Query X) w :
  fault_at w (ncalls w) = None →
  Select q w = (Return (scan_all (run q (db w))), tick (log (EQuery q) w)).
Proof.
  intros H0. unfold Select, mbind, M_bind, mret, M_ret, call, gets.
  by rewrite H0.
Qed.

(** A successful Create commits the INSERT and uses three calls. *)
Lemma ArticleCreate_healthy w article a :
  healthy 3 w → heap w !! article = Some a →
  let insert := InsertArticle (Article.Title a) (Article.Body a) (clock w) (clock w) in
  ∃ w', ArticleCreate article w = (Return (Ok (exec insert (db w)).2), w') ∧
        db w' = (exec insert (db w)).1 ∧
        fault_at w' = fault_at w ∧ ncalls w' = S (S (S (ncalls w))).
Proof.
  intros H Ha.
  pose proof (healthy_0 _ _ H) as H0. pose proof (healthy_1 _ _ H) as H1.
  pose proof (healthy_2 _ _ H) as H2.
  step. rewrite Ha. cbn. rewrite lookup_insert_eq. cbn. rewrite H0. cbn.
  rewrite lookup_insert_eq. cbn. rewrite H1. cbn. rewrite H2. cbn.
  eexists. split; [reflexivity|]. done.
Qed.

(** C4. On a healthy backend, Create followed by GetByID on the identity
    Create reports returns an article with the title and body of the input,
    whose Created and Updated are both the clock reading Create took,
    whatever timestamps the caller's struct carried. *)
Theorem create_then_get (w : World) (article : ptr) (a : Article.t) :
  wf_DB (db w) →
  healthy 4 w →
  heap w !! article = Some a →
  ∃ res w' got w'',
    ArticleCreate article w = (Return (Ok res), w') ∧
    ArticleGetByID (LastInsertId res) w' = (Return (Ok got), w'') ∧
    Article.ID got = LastInsertId res ∧
    Article.Title got = Article.Title a ∧
    Article.Body got = Article.Body a ∧
    Article.Created got = Article.Updated got ∧
    Article.Created got = clock w.
Proof.
  intros Hwf H Ha.
  destruct (ArticleCreate_healthy w article a) as (w' & Hc & Hdb & Hf & Hn);
    [intros i Hi; apply H; lia | done |].
  exists (exec (InsertArticle (Article.Title a) (Article.Body a)
                              (clock w) (clock w)) (db w)).2, w'.
  unfold ArticleGetByID.
  rewrite Get_healthy by (rewrite Hf, Hn; by eapply healthy_3).
  rewrite Hdb. change (LastInsertId (exec _ (db w)).2) with (next_id (db w)).
  rewrite select_inserted by done.
  do 2 eexists. split; [exact Hc|]. split; [reflexivity|]. done.
Qed.

Lemma create_then_get_witness :
  ∃ res w' got w'',
    ArticleCreate 1%positive (sample.world sample.blog 200 sample.reliable)
      = (Return (Ok res), w') ∧
    ArticleGetByID (LastInsertId res) w' = (Return (Ok got), w'') ∧
    Article.ID got = LastInsertId res ∧
    Article.Title got = "Hello again" ∧
    Article.Body got = "second thoughts" ∧
    Article.Created got = Article.Updated got ∧
    Article.Created got = 200.
Proof.
  apply (create_then_get (sample.world sample.blog 200 sample.reliable)
           1%positive sample.draft).
  - unfold wf_DB. cbn. repeat constructor.
  - apply healthy_reliable.
  - reflexivity.
Defined.

(** A successful Delete commits the DELETE and uses three calls. *)
Lemma ArticleDelete_healthy w id :
  healthy 3 w →
  ∃ w', ArticleDelete id w = (Return None, w') ∧
        db w' = (exec (DeleteArticle id) (db w)).1 ∧
        fault_at w' = fault_at w ∧ ncalls w' = S (S (S (ncalls w))).
Proof.
  intros H.
  pose proof (healthy_0 _ _ H) as H0. pose proof (healthy_1 _ _ H) as H1.
  pose proof (healthy_2 _ _ H) as H2.
  step. rewrite H0. cbn. rewrite H1. cbn. rewrite H2. cbn.
  eexists. split; [reflexivity|]. done.
Qed.

Lemma set_articles_id d : set_articles (articles d) (next_id d) d = d.
Proof. by destruct d. Qed.

(** C7. On a healthy backend Delete returns no error for any id. When no
    row has the id, the DELETE affects zero rows and the database stays as it
    was. In every case no row with the id is left, the other rows are kept,
    and GetByID on the id then answers with sql.ErrNoRows. *)
Theorem delete_then_get (w : World) (id : Z) :
  healthy 4 w →
  ∃ w',
    ArticleDelete id w = (Return None, w') ∧
    (ArticleGetByID id w').1 = Return (Err ErrNoRows) ∧
    (∀ r, r ∈ articles (db w') ↔ r ∈ articles (db w) ∧ r_id r ≠ id) ∧
    ((∀ r, r ∈ articles (db w) → r_id r ≠ id) →
       RowsAffected (exec (DeleteArticle id) (db w)).2 = 0 ∧ db w' = db w).
Proof.
  intros H.
  destruct (ArticleDelete_healthy w id) as (w' & Hd & Hdb & Hf & Hn);
    [intros i Hi; apply H; lia |].
  exists w'. split; [exact Hd|]. split; [|split].
  - unfold ArticleGetByID.
    rewrite Get_healthy by (rewrite Hf, Hn; by eapply healthy_3).
    rewrite Hdb. cbn [run exec fst set_articles articles].
    rewrite list_filter_filter, filter_none; [done|].
    intros r _ [Hr1 Hr2]. congruence.
  - intros r. rewrite Hdb. cbn [exec fst set_articles articles].
    rewrite list_elem_of_filter, has_id_false. tauto.
  - intros Hnone. split.
    + cbn [exec snd RowsAffected]. rewrite filter_none; [done|].
      intros r Hr. rewrite has_id_true. by apply Hnone.
    + rewrite Hdb. cbn [exec fst]. rewrite filter_all.
      * apply set_articles_id.
      * intros r Hr. rewrite has_id_false. by apply Hnone.
Qed.

Lemma delete_then_get_witness :
  ∃ w',
    ArticleDelete 9 (sample.world sample.blog 200 sample.reliable)
      = (Return None, w') ∧
    (ArticleGetByID 9 w').1 = Return (Err ErrNoRows) ∧
    RowsAffected (exec (DeleteArticle 9) sample.blog).2 = 0 ∧
    db w' = sample.blog.
Proof.
  destruct (delete_then_get (sample.world sample.blog 200 sample.reliable) 9
              (healthy_reliable _ _ _)) as (w' & Hd & Hg & _ & Hnone).
  exists w'. split; [exact Hd|]. split; [exact Hg|].
  apply Hnone. intros r Hr. rows_of Hr; discriminate.
Defined.

(** A successful Update commits the UPDATE and uses three calls. *)
Lemma ArticleUpdate_healthy w article a :
  healthy 3 w → heap w !! article = Some a →
  let update := UpdateArticle (Article.Title a) (Article.Body a) (clock w)
                              (Article.ID a) in
  ∃ w', ArticleUpdate article w = (Return (Ok (exec update (db w)).2), w') ∧
        db w' = (exec update (db w)).1 ∧
        fault_at w' = fault_at w ∧ ncalls w' = S (S (S (ncalls w))).
Proof.
  intros H Ha.
  pose proof (healthy_0 _ _ H) as H0. pose proof (healthy_1 _ _ H) as H1.
  pose proof (healthy_2 _ _ H) as H2.
  step. rewrite Ha. cbn. rewrite H0. cbn.
  rewrite lookup_insert_eq. cbn. rewrite H1. cbn. rewrite H2. cbn.
  eexists. split; [reflexivity|]. done.
Qed.

(** C6, as the code has it. On a healthy backend Update rewrites, in the
    rows whose id is the struct's ID, the title, the body and Updated, the
    latter with the clock reading of the call; id, Created and the writer
    link of every row, the other rows, their number and order, and the other
    tables stay as they were. The stored Updated therefore moves strictly
    forward exactly when the clock reading is later than the stored value,
    and does not move back exactly when the reading is not earlier. *)
Theorem update_touches_title_body_updated (w : World) (article : ptr) (a : Article.t) :
  healthy 3 w →
  heap w !! article = Some a →
  ∃ res w',
    ArticleUpdate article w = (Return (Ok res), w') ∧
    writers (db w') = writers (db w) ∧
    next_id (db w') = next_id (db w) ∧
    length (articles (db w')) = length (articles (db w)) ∧
    ∀ (i : nat) r, articles (db w) !! i = Some r →
      ∃ r', articles (db w') !! i = Some r' ∧
            r_id r' = r_id r ∧
            r_created r' = r_created r ∧
            r_writer_id r' = r_writer_id r ∧
            (r_id r = Article.ID a →
               r_title r' = Article.Title a ∧ r_body r' = Article.Body a ∧
               r_updated r' = clock w ∧
               (r_updated r < r_updated r' ↔ r_updated r < clock w) ∧
               (r_updated r ≤ r_updated r' ↔ r_updated r ≤ clock w)) ∧
            (r_id r ≠ Article.ID a → r' = r).
Proof.
  intros H Ha.
  destruct (ArticleUpdate_healthy w article a H Ha) as (w' & Hu & Hdb & _ & _).
  eexists _, w'. split; [exact Hu|]. rewrite Hdb.
  cbn [exec fst set_articles articles writers next_id].
  split; [done|]. split; [done|]. split; [by rewrite length_fmap|].
  intros i r Hr. rewrite list_lookup_fmap, Hr. cbn.
  eexists. split; [reflexivity|].
  destruct (has_id (Article.ID a) r) eqn:Hid.
  - apply has_id_true in Hid. cbn. repeat split; done.
  - apply has_id_false in Hid. repeat split; done.
Qed.

Lemma update_touches_title_body_updated_witness :
  ∃ res w' r',
    ArticleUpdate 1%positive (sample.world sample.blog 200 sample.reliable)
      = (Return (Ok res), w') ∧
    writers (db w') = writers sample.blog ∧
    length (articles (db w')) = 4%nat ∧
    articles (db w') !! 0%nat = Some r' ∧
    r_id r' = 1 ∧ r_created r' = 100 ∧ r_writer_id r' = Some 7 ∧
    r_title r' = "Hello again" ∧ r_body r' = "second thoughts" ∧
    r_updated r' = 200.
Proof.
  destruct (update_touches_title_body_updated
              (sample.world sample.blog 200 sample.reliable) 1%positive
              sample.draft (healthy_reliable _ _ _) eq_refl)
    as (res & w' & Hu & Hw & _ & Hlen & Hrows).
  destruct (Hrows 0%nat _ eq_refl) as (r' & Hr' & Hid & Hc & Hwid & Hset & _).
  destruct (Hset eq_refl) as (Ht & Hb & Hup & _).
  exists res, w', r'.
  exact (conj Hu (conj Hw (conj Hlen (conj Hr' (conj Hid (conj Hc (conj Hwid
          (conj Ht (conj Hb Hup))))))))).
Defined.

(** C6 as stated fails in both its readings. An Update issued while the
    clock still reads the stored Updated value (stored 100, clock 100)
    leaves that value where it was, so it does not advance strictly; an
    Update issued while the clock reads less than the stored value (stored
    100, clock 50) moves it back, so it is not non-decreasing either. *)
Lemma update_need_not_advance :
  ¬ (∀ (w : World) (article : ptr) (a : Article.t),
       healthy 3 w → heap w !! article = Some a →
       ∀ (i : nat) r r',
         articles (db w) !! i = Some r →
         articles (db (ArticleUpdate article w).2) !! i = Some r' →
         r_id r = Article.ID a →
         r_updated r < r_updated r') ∧
  ¬ (∀ (w : World) (article : ptr) (a : Article.t),
       healthy 3 w → heap w !! article = Some a →
       ∀ (i : nat) r r',
         articles (db w) !! i = Some r →
         articles (db (ArticleUpdate article w).2) !! i = Some r' →
         r_id r = Article.ID a →
         r_updated r ≤ r_updated r').
Proof.
  split; intros Hclaim.
  - specialize (Hclaim (sample.world sample.blog 100 sample.reliable)
                  1%positive sample.draft (healthy_reliable _ _ _) eq_refl
                  0%nat _ _ eq_refl eq_refl eq_refl).
    vm_compute in Hclaim. discriminate Hclaim.
  - specialize (Hclaim (sample.world sample.blog 50 sample.reliable)
                  1%positive sample.draft (healthy_reliable _ _ _) eq_refl
                  0%nat _ _ eq_refl eq_refl eq_refl).
    vm_compute in Hclaim. by apply Hclaim.
Qed.

(* ===================================================================== *)
(** ** The cursor page *)
(* ===================================================================== *)

#[local] Instance id_desc_trans : Transitive id_desc.
Proof. intros x y z. unfold id_desc. lia. Qed.

#[local] Instance id_desc_total : Total id_desc.
Proof. intros x y. unfold id_desc. lia. Qed.

Lemma scan_all_rows (rows : list ArticleRow) : scan_all rows = Ok (of_row <$> rows).
Proof. induction rows as [|r rows IH]; [done|]. cbn. by rewrite IH. Qed.

Section page.
Variable (d : DB) (c : Z).

Let matching := filter (λ r, r_id r < c) (articles d).
Let page := run (SelectByCursor c) d.

Lemma page_length : (length page ≤ 10)%nat.
Proof. subst page. cbn. rewrite length_take. lia. Qed.

Lemma page_length_min : length page = (10 `min` length matching)%nat.
Proof.
  subst page matching. cbn.
  by rewrite length_take, (Permutation_length (merge_sort_Permutation _ _)).
Qed.

Lemma page_sorted : StronglySorted id_desc page.
Proof.
  subst page. cbn.
  eapply (StronglySorted_app_1_l _ _ (drop 10 _)).
  rewrite take_drop. apply StronglySorted_merge_sort; apply _.
Qed.

Lemma page_sound r : r ∈ page → r ∈ articles d ∧ r_id r < c.
Proof.
  subst page. cbn. intros Hr.
  apply subseteq_take in Hr.
  rewrite merge_sort_Permutation in Hr.
  apply list_elem_of_filter in Hr. tauto.
Qed.

(** A matching row is on the page unless ten rows with identities at least
    as large are. *)
Lemma page_complete r :
  r ∈ articles d → r_id r < c →
  r ∈ page ∨ (length page = 10%nat ∧ ∀ r', r' ∈ page → r_id r ≤ r_id r').
Proof.
  intros Hr Hc. subst page. cbn.
  set (sorted := merge_sort id_desc (filter (λ r, r_id r < c) (articles d))).
  assert (r ∈ take 10 sorted ++ drop 10 sorted) as Hin.
  { rewrite take_drop. subst sorted. rewrite merge_sort_Permutation.
    by apply list_elem_of_filter. }
  apply elem_of_app in Hin as [Hin|Hin]; [by left|right]. split.
  - apply length_take_le.
    destruct (decide (10 ≤ length sorted)%nat) as [|Hlt]; [done|].
    rewrite drop_ge in Hin by lia. by apply elem_of_nil in Hin.
  - intros r' Hr'.
    eapply (StronglySorted_app_1_elem_of id_desc (take 10 sorted) (drop 10 sorted));
      [|done..].
    rewrite take_drop. apply StronglySorted_merge_sort; apply _.
Qed.

Lemma page_empty : (∀ r, r ∈ articles d → ¬ r_id r < c) → page = [].
Proof.
  intros Hno. subst page. cbn. rewrite filter_none; [done|].
  intros r Hr. by apply Hno.
Qed.

(** The page and the rows it leaves out are, counted with multiplicity, the
    rows below the cursor; rows are left out of a full page only, and none
    of them has a larger identity than a row on the page. *)
Lemma page_exact :
  ∃ rest, page ++ rest ≡ₚ matching ∧
          (rest ≠ [] → length page = 10%nat) ∧
          (∀ r r', r ∈ page → r' ∈ rest → r_id r' ≤ r_id r).
Proof.
  subst page matching. cbn.
  set (sorted := merge_sort id_desc (filter (λ r, r_id r < c) (articles d))).
  exists (drop 10 sorted). split; [|split].
  - rewrite take_drop. apply merge_sort_Permutation.
  - intros Hrest. apply length_take_le.
    destruct (decide (10 ≤ length sorted)%nat) as [|Hlt]; [done|].
    rewrite drop_ge in Hrest by lia. done.
  - intros r r' Hr Hr'.
    eapply (StronglySorted_app_1_elem_of id_desc (take 10 sorted) (drop 10 sorted));
      [|done..].
    rewrite take_drop. apply StronglySorted_merge_sort; apply _.
Qed.

Lemma page_NoDup : NoDup (r_id <$> articles d) → NoDup (r_id <$> page).
Proof.
  intros Hu. subst page. cbn.
  eapply sublist_NoDup; [|apply fmap_sublist, sublist_take].
  rewrite merge_sort_Permutation.
  eapply sublist_NoDup; [exact Hu|]. apply fmap_sublist, sublist_filter.
Qed.

End page.

(** Without two rows of one identity, descending order is strict. *)
Lemma sorted_strictly (l : list ArticleRow) :
  StronglySorted id_desc l → NoDup (r_id <$> l) →
  StronglySorted (λ r1 r2, r_id r2 < r_id r1) l.
Proof.
  induction 1 as [|r l Hl IH Hr]; intros Hnd; [constructor|].
  rewrite fmap_cons in Hnd. apply NoDup_cons in Hnd as [Hfresh Hnd].
  constructor; [by apply IH|].
  rewrite Forall_forall in Hr |- *. intros r' Hr'.
  pose proof (Hr r' Hr') as Hle. unfold id_desc in Hle.
  assert (r_id r' ≠ r_id r); [|lia].
  intros Heq. apply Hfresh. rewrite <- Heq. by apply list_elem_of_fmap_2.
Qed.

Lemma of_row_shows r : shows (of_row r) r ∧ unjoined (of_row r).
Proof. done. Qed.

Lemma of_rows_show (rows : list ArticleRow) : Forall2 shows (of_row <$> rows) rows.
Proof.
  induction rows as [|r rows IH]; [constructor|].
  rewrite fmap_cons. constructor; [apply of_row_shows | exact IH].
Qed.

(** C2. When the query reaches the backend, ListByCursor returns at most 10
    articles, each carrying the columns of its row: the rows of the page
    are, counted with multiplicity, exactly the rows whose id is strictly
    below the effective cursor, less the rows a full page leaves out, none
    of which has a larger id than a row on the page. The page is in
    descending order of id, strictly so when ids are unique. A cursor that is
    zero or negative stands for MaxInt32, so all such cursors give the answer
    of cursor 0, the first page: it holds the highest ids below MaxInt32,
    hence of the whole table when every id is below MaxInt32, highest first.
    When no row is below the cursor the answer is the empty page, not an
    error. *)
Theorem list_by_cursor_page (w : World) (cursor : Z) :
  fault_at w (ncalls w) = None →
  ∃ (answer : list Article.t) (page rest : list ArticleRow),
    (ArticleListByCursor cursor w).1 = Return (Ok answer) ∧
    Forall2 shows answer page ∧
    (length page ≤ 10)%nat ∧
    length page
      = Nat.min 10 (length (filter (λ r, r_id r < effective cursor)
                                   (articles (db w)))) ∧
    page ++ rest ≡ₚ filter (λ r, r_id r < effective cursor) (articles (db w)) ∧
    (rest ≠ [] → length page = 10%nat) ∧
    (∀ r r', r ∈ page → r' ∈ rest → r_id r' ≤ r_id r) ∧
    (∀ r, r ∈ page → r ∈ articles (db w) ∧ r_id r < effective cursor) ∧
    StronglySorted (λ r1 r2, r_id r2 ≤ r_id r1) page ∧
    (NoDup (r_id <$> articles (db w)) →
       StronglySorted (λ r1 r2, r_id r2 < r_id r1) page) ∧
    (∀ r, r ∈ articles (db w) → r_id r < effective cursor →
       r ∈ page ∨ (length page = 10%nat ∧ ∀ r', r' ∈ page → r_id r ≤ r_id r')) ∧
    ((∀ r, r ∈ articles (db w) → ¬ r_id r < effective cursor) →
       answer = [] ∧ page = []) ∧
    (cursor ≤ 0 →
       effective cursor = MaxInt32 ∧
       ArticleListByCursor cursor w = ArticleListByCursor 0 w ∧
       ((∀ r, r ∈ articles (db w) → r_id r < MaxInt32) →
        ∀ r, r ∈ articles (db w) →
          r ∈ page ∨
          (length page = 10%nat ∧ ∀ r', r' ∈ page → r_id r ≤ r_id r'))).
Proof.
  intros H0.
  destruct (page_exact (db w) (effective cursor)) as (rest & Hperm & Hfull & Hrest).
  exists (of_row <$> run (SelectByCursor (effective cursor)) (db w)),
         (run (SelectByCursor (effective cursor)) (db w)), rest.
  split; [|split; [|split; [|split; [|split; [|split; [|split; [|split;
    [|split; [|split; [|split; [|split]]]]]]]]]]].
  - unfold ArticleListByCursor. fold (effective cursor).
    by rewrite Select_healthy, scan_all_rows.
  - apply of_rows_show.
  - apply page_length.
  - apply page_length_min.
  - exact Hperm.
  - exact Hfull.
  - exact Hrest.
  - apply page_sound.
  - apply page_sorted.
  - intros Hu. apply sorted_strictly; [apply page_sorted | by apply page_NoDup].
  - apply page_complete.
  - intros Hno. by rewrite page_empty.
  - intros Hc.
    assert (effective cursor = MaxInt32) as Heff
      by (unfold effective; by rewrite bool_decide_eq_true_2).
    split; [exact Heff|]. split.
    + unfold ArticleListByCursor. by rewrite !bool_decide_eq_true_2 by lia.
    + intros Hsmall r Hr. apply page_complete; [done|].
      rewrite Heff. by apply Hsmall.
Qed.

Lemma list_by_cursor_page_witness :
  let w := sample.world sample.fifteen 200 sample.reliable in
  ∃ (answer : list Article.t) (page rest : list ArticleRow),
    (ArticleListByCursor (-7) w).1 = Return (Ok answer) ∧
    Forall2 shows answer page ∧
    length page = 10%nat ∧
    page ++ rest ≡ₚ articles sample.fifteen ∧
    StronglySorted (λ r1 r2, r_id r2 < r_id r1) page ∧
    ArticleListByCursor (-7) w = ArticleListByCursor 0 w ∧
    (∀ r, r ∈ articles sample.fifteen →
       r ∈ page ∨ ∀ r', r' ∈ page → r_id r ≤ r_id r').
Proof.
  intros w.
  assert (∀ r, r ∈ articles sample.fifteen → r_id r < MaxInt32) as Hsmall
    by (intros r Hr; rows_of Hr; done).
  assert (NoDup (r_id <$> articles sample.fifteen)) as Hu
    by (apply (bool_decide_unpack _); vm_compute; exact I).
  destruct (list_by_cursor_page w (-7) eq_refl)
    as (answer & page & rest & Hanswer & Hshows & _ & Hlen & Hperm & _ & _ & _
        & _ & Hstrict & _ & _ & Hfirst).
  destruct (Hfirst ltac:(done)) as (Heff & Hsame & Htop).
  exists answer, page, rest.
  split; [exact Hanswer|]. split; [exact Hshows|]. split; [|split; [|split; [|split]]].
  - etransitivity; [exact Hlen|]. vm_compute. reflexivity.
  - rewrite Hperm, Heff. by rewrite filter_all.
  - exact (Hstrict Hu).
  - exact Hsame.
  - intros r Hr. destruct (Htop Hsmall r Hr) as [?|[_ ?]]; auto.
Defined.

(** The pages of the specification's example, articles 1 to 15. *)
Example first_page_of_fifteen :
  page_ids (ArticleListByCursor 0
              (sample.world sample.fifteen 200 sample.reliable)).1
    = Some [15; 14; 13; 12; 11; 10; 9; 8; 7; 6].
Proof. vm_compute. reflexivity. Qed.

Example second_page_of_fifteen :
  page_ids (ArticleListByCursor 6
              (sample.world sample.fifteen 200 sample.reliable)).1
    = Some [5; 4; 3; 2; 1].
Proof. vm_compute. reflexivity. Qed.

Example page_below_the_smallest_id :
  (ArticleListByCursor 1 (sample.world sample.fifteen 200 sample.reliable)).1
    = Return (Ok []).
Proof. vm_compute. reflexivity. Qed.

(* ===================================================================== *)
(** ** Joined reads *)
(* ===================================================================== *)

Lemma join_on_true a wr : join_on a wr = true ↔ r_writer_id a = Some (w_id wr).
Proof.
  unfold join_on. destruct (r_writer_id a) as [k|]; [|done].
  rewrite bool_decide_eq_true. split; congruence.
Qed.

Lemma elem_of_inner_join d a wr :
  (a, wr) ∈ inner_join d ↔
  a ∈ articles d ∧ wr ∈ writers d ∧ r_writer_id a = Some (w_id wr).
Proof.
  unfold inner_join. rewrite list_elem_of_bind. split.
  - intros (a' & Hin & Ha'). apply list_elem_of_bind in Hin as (wr' & Hin & Hwr').
    destruct (join_on a' wr') eqn:Hj; [|by apply elem_of_nil in Hin].
    apply list_elem_of_singleton in Hin. simplify_eq.
    by apply join_on_true in Hj.
  - intros (Ha & Hwr & Hj). exists a. split; [|done].
    apply list_elem_of_bind. exists wr. split; [|done].
    apply join_on_true in Hj. rewrite Hj. by apply list_elem_of_singleton.
Qed.

Lemma filter_ext_elem {A} (P Q : A → Prop)
    `{∀ x, Decision (P x)} `{∀ x, Decision (Q x)} (l : list A) :
  (∀ x, x ∈ l → P x ↔ Q x) → filter P l = filter Q l.
Proof.
  induction l as [|x l IH]; intros Hl; [done|].
  rewrite !filter_cons.
  rewrite IH by (intros y Hy; apply Hl; by right).
  destruct (decide (P x)) as [HP|HP], (decide (Q x)) as [HQ|HQ]; try done;
    exfalso; apply (Hl x) in HP || apply (Hl x) in HQ; try done; by left.
Qed.

(** The inner join already drops the articles whose writer_id is NULL. *)
Lemma not_null_is_implied d id :
  filter (λ aw, has_id id aw.1 = true ∧ is_Some (r_writer_id aw.1)) (inner_join d)
  = filter (λ aw, has_id id aw.1 = true) (inner_join d).
Proof.
  apply filter_ext_elem. intros [a wr] Hin. cbn.
  apply elem_of_inner_join in Hin as (_ & _ & Hj). rewrite Hj.
  split; [tauto | eauto].
Qed.

Lemma joined_rows d id a wr :
  (a, wr) ∈ filter (λ aw, has_id id aw.1 = true) (inner_join d) ↔
  a ∈ articles d ∧ wr ∈ writers d ∧ r_id a = id ∧
  r_writer_id a = Some (w_id wr).
Proof.
  rewrite list_elem_of_filter, elem_of_inner_join. cbn. rewrite has_id_true.
  tauto.
Qed.

Lemma NoDup_fmap_eq {A B} (f : A → B) (l : list A) x y :
  NoDup (f <$> l) → x ∈ l → y ∈ l → f x = f y → x = y.
Proof.
  induction l as [|z l IH]; intros Hnd Hx Hy Hf; [by apply elem_of_nil in Hx|].
  rewrite fmap_cons in Hnd. apply NoDup_cons in Hnd as [Hz Hnd].
  apply elem_of_cons in Hx as [->|Hx], Hy as [->|Hy]; try done.
  - exfalso. apply Hz. rewrite Hf. by apply list_elem_of_fmap_2.
  - exfalso. apply Hz. rewrite <- Hf. by apply list_elem_of_fmap_2.
  - by apply IH.
Qed.

(** Under unique identities, the join holds one pair for a linked article. *)
Lemma joined_rows_unique d id a wr l :
  unique_ids d →
  a ∈ articles d → wr ∈ writers d → r_id a = id →
  r_writer_id a = Some (w_id wr) →
  l ∈ filter (λ aw, has_id id aw.1 = true) (inner_join d) →
  l = (a, wr).
Proof.
  intros [Hua Huw] Ha Hwr Hid Hj Hl. destruct l as [a' wr'].
  apply joined_rows in Hl as (Ha' & Hwr' & Hid' & Hj').
  assert (a' = a) as -> by (eapply NoDup_fmap_eq; eauto; congruence).
  assert (wr' = wr) as ->; [|done].
  eapply NoDup_fmap_eq; eauto. congruence.
Qed.

Lemma head_elem {A} (l : list A) : l = [] ∨ ∃ x l', l = x :: l' ∧ x ∈ l.
Proof. destruct l as [|x l']; [by left|right]. exists x, l'. split; [done|by left]. Qed.

(** C3. When the query reaches the backend: GetWithWriterName answers
    sql.ErrNoRows if every article row with the id has a NULL writer_id, and
    more generally exactly when no article row with the id is linked to a
    writer row; with unique identities, for an article linked to a writer it
    returns an article whose ID, Title and WriterName are the id, the
    row's title and the writer's stored name, the empty string standing in
    for a NULL name only (a stored empty name comes back as it is, like any
    other). *)
Theorem get_with_writer_name (w : World) (id : Z) :
  fault_at w (ncalls w) = None →
  let d := db w in
  let answer := (ArticleGetWithWriterName id w).1 in
  ((∀ r, r ∈ articles d → r_id r = id → r_writer_id r = None) →
     answer = Return (Err ErrNoRows)) ∧
  (answer = Return (Err ErrNoRows) ↔
     ¬ ∃ r wr, r ∈ articles d ∧ wr ∈ writers d ∧ r_id r = id ∧
               r_writer_id r = Some (w_id wr)) ∧
  (unique_ids d →
   ∀ r wr, r ∈ articles d → wr ∈ writers d → r_id r = id →
           r_writer_id r = Some (w_id wr) →
     ∃ got, answer = Return (Ok got) ∧
            Article.ID got = id ∧
            Article.Title got = r_title r ∧
            Article.WriterName got = match w_name wr with
                                     | Some name => name
                                     | None => ""
                                     end).
Proof.
  intros H0 d answer. subst d answer. unfold ArticleGetWithWriterName.
  rewrite Get_healthy by done. cbn [fst run]. rewrite not_null_is_implied.
  set (rows := filter _ (inner_join (db w))).
  assert (∀ r wr, (r, wr) ∈ rows ↔
            r ∈ articles (db w) ∧ wr ∈ writers (db w) ∧ r_id r = id ∧
            r_writer_id r = Some (w_id wr)) as Hrows
    by (intros; apply joined_rows).
  assert ((match (λ aw, (r_id aw.1, r_title aw.1, COALESCE (w_name aw.2))) <$> rows with
           | [] => Err ErrNoRows
           | x :: _ => scan x
           end = Err ErrNoRows) ↔ rows = []) as Hnone.
  { destruct rows as [|[r wr] rows']; [done|]. cbn. split; discriminate. }
  assert (rows = [] ↔
          ¬ ∃ r wr, r ∈ articles (db w) ∧ wr ∈ writers (db w) ∧ r_id r = id ∧
                    r_writer_id r = Some (w_id wr)) as Hempty.
  { split.
    - intros Hnil (r & wr & Hr). apply Hrows in Hr. rewrite Hnil in Hr.
      by apply elem_of_nil in Hr.
    - intros Hno. destruct (head_elem rows) as [|([r wr] & l' & _ & Hin)]; [done|].
      exfalso. apply Hno. exists r, wr. by apply Hrows. }
  split; [|split].
  - intros Hnull. f_equal. apply Hnone, Hempty.
    intros (r & wr & Hr & _ & Hid & Hj). rewrite (Hnull r Hr Hid) in Hj. done.
  - rewrite <- Hempty, <- Hnone. split; [by intros [= ->] | by intros ->].
  - intros Hu r wr Hr Hwr Hid Hj.
    destruct (head_elem rows) as [Hnil|(x & l' & Heq & Hin)].
    + exfalso. apply Hempty in Hnil. apply Hnil. by exists r, wr.
    + rewrite Heq. subst rows.
      rewrite (joined_rows_unique (db w) id r wr x Hu Hr Hwr Hid Hj Hin).
      eexists. split; [reflexivity|]. cbn. unfold COALESCE.
      by destruct (w_name wr).
Qed.

Lemma unique_ids_sample : unique_ids sample.blog ∧ unique_ids sample.named.
Proof. repeat split; cbn; apply (bool_decide_unpack _); vm_compute; exact I. Qed.

Lemma get_with_writer_name_witness :
  let w := sample.world sample.blog 200 sample.reliable in
  (ArticleGetWithWriterName 2 w).1 = Return (Err ErrNoRows) ∧
  (∃ got, (ArticleGetWithWriterName 3 w).1 = Return (Ok got) ∧
          Article.ID got = 3 ∧ Article.Title got = "Guest" ∧
          Article.WriterName got = "") ∧
  (∃ got, (ArticleGetWithWriterName 4 w).1 = Return (Ok got) ∧
          Article.ID got = 4 ∧ Article.Title got = "Anon" ∧
          Article.WriterName got = "") ∧
  (∃ got, (ArticleGetWithWriterName 1 w).1 = Return (Ok got) ∧
          Article.ID got = 1 ∧ Article.Title got = "Hello" ∧
          Article.WriterName got = "gopher").
Proof.
  intros w.
  destruct (get_with_writer_name w 2 eq_refl) as (Hnull & _ & _).
  destruct (get_with_writer_name w 3 eq_refl) as (_ & _ & Hguest).
  destruct (get_with_writer_name w 4 eq_refl) as (_ & _ & Hanon).
  destruct (get_with_writer_name w 1 eq_refl) as (_ & _ & Hhello).
  split; [|split; [|split]].
  - apply Hnull. intros r Hr Hid. rows_of Hr; done.
  - apply (Hguest (proj1 unique_ids_sample)
             (mkArticleRow 3 "Guest" "writer without a name" 100 100 (Some 8))
             (mkWriterRow 8 None)); [set_solver | set_solver | done | done].
  - apply (Hanon (proj1 unique_ids_sample)
             (mkArticleRow 4 "Anon" "writer with an empty name" 100 100 (Some 9))
             (mkWriterRow 9 (Some ""))); [set_solver | set_solver | done | done].
  - apply (Hhello (proj1 unique_ids_sample)
             (mkArticleRow 1 "Hello" "first post" 100 100 (Some 7))
             (mkWriterRow 7 (Some "gopher"))); [set_solver | set_solver | done | done].
Defined.

(** The four kinds of article of the sample database: linked to a named
    writer, not linked, linked to a writer whose name is NULL, linked to a
    writer whose name is the empty string. *)
Example writer_name_of_a_linked_article :
  (ArticleGetWithWriterName 1 (sample.world sample.blog 200 sample.reliable)).1
    = Return (Ok (of_writer_name 1 "Hello" "gopher")).
Proof. vm_compute. reflexivity. Qed.

Example writer_name_of_an_article_without_writer :
  (ArticleGetWithWriterName 2 (sample.world sample.blog 200 sample.reliable)).1
    = Return (Err ErrNoRows).
Proof. vm_compute. reflexivity. Qed.

Example writer_name_when_the_stored_name_is_null :
  (ArticleGetWithWriterName 3 (sample.world sample.blog 200 sample.reliable)).1
    = Return (Ok (of_writer_name 3 "Guest" "")).
Proof. vm_compute. reflexivity. Qed.

Example writer_name_when_the_stored_name_is_empty :
  (ArticleGetWithWriterName 4 (sample.world sample.blog 200 sample.reliable)).1
    = Return (Ok (of_writer_name 4 "Anon" "")).
Proof. vm_compute. reflexivity. Qed.




(** C10. The code departs from the claim on article 3 of the sample, whose
    writer (8) has a NULL name: the article row has a non-null writer_id
    matching an existing writer, GetWithWriterName returns it with the empty
    name that COALESCE puts in place of the NULL, and GetWithWriter, which
    selects the same column without COALESCE, fails with the scan error. *)
Theorem get_with_writer_fails_on_a_null_name :
  let w := sample.world sample.blog 200 sample.reliable in
  (∃ r wr, r ∈ articles (db w) ∧ wr ∈ writers (db w) ∧ r_id r = 3 ∧
           r_writer_id r = Some (w_id wr) ∧ w_name wr = None) ∧
  (∃ b, (ArticleGetWithWriterName 3 w).1 = Return (Ok b) ∧
        Article.ID b = 3 ∧ Article.Title b = "Guest" ∧
        Article.WriterName b = "") ∧
  (ArticleGetWithWriter 3 w).1 = Return (Err (ErrScanNull "writer.name")).
Proof.
  cbn zeta. split; [|split].
  - exists (mkArticleRow 3 "Guest" "writer without a name" 100 100 (Some 8)),
           (mkWriterRow 8 None).
    split; [cbn; set_solver|]. split; [cbn; set_solver|]. done.
  - eexists. split; [vm_compute; reflexivity|]. done.
  - vm_compute. reflexivity.
Qed.

Example nested_writer_of_a_linked_article :
  (ArticleGetWithWriter 1 (sample.world sample.blog 200 sample.reliable)).1
    = Return (Ok (of_writer 1 "Hello" 7 "gopher")).
Proof. vm_compute. reflexivity. Qed.

Example nested_writer_when_the_stored_name_is_null :
  (ArticleGetWithWriter 3 (sample.world sample.blog 200 sample.reliable)).1
    = Return (Err (ErrScanNull "writer.name")).
Proof. vm_compute. reflexivity. Qed.

(* ===================================================================== *)
(** ** Articles with their tags *)
(* ===================================================================== *)

Lemma scan_all_id_title (rows : list ArticleRow) :
  scan_all ((λ r, (r_id r, r_title r)) <$> rows)
  = Ok ((λ r, of_id_title (r_id r) (r_title r)) <$> rows).
Proof. induction rows as [|r rows IH]; [done|]. cbn. by rewrite IH. Qed.

(** What ListWithTags does once its query reached the backend. *)
Lemma ArticleListWithTags_healthy
    (TagListMapByArticleIDs : list Z → DB → result (gmap Z (list Tag.t))) w :
  fault_at w (ncalls w) = None →
  let ids := r_id <$> articles (db w) in
  ArticleListWithTags TagListMapByArticleIDs w
  = (Return match TagListMapByArticleIDs ids (db w) with
            | Err e => Err e
            | Ok m =>
                Ok ((λ r, Article.set_Tags (index m (r_id r))
                            (of_id_title (r_id r) (r_title r)))
                      <$> articles (db w))
            end,
     log (ETagListMapByArticleIDs ids) (tick (log (EQuery SelectIdTitle) w))).
Proof.
  intros H0 ids. unfold ArticleListWithTags.
  unfold mbind at 1. unfold M_bind at 1.
  rewrite Select_healthy by done. cbn [run].
  rewrite scan_all_id_title, <- list_fmap_compose.
  unfold call_TagListMapByArticleIDs, mbind, M_bind, mret, M_ret, gets, update.
  cbn. change (Article.ID ∘ _ <$> articles (db w)) with ids.
  destruct (TagListMapByArticleIDs ids (db w)) as [m|e]; [|done].
  by rewrite <- list_fmap_compose.
Qed.

(** C1. When its query reaches the backend, ListWithTags reads id and title
    of every article row, then calls TagListMapByArticleIDs once, with the
    ids of all the rows read, and nothing else; on the store's mapping it
    returns one article per row, in the order of the rows, with the row's id
    and title, every other field at its zero value, and as Tags the
    mapping's entry for the id, or the empty sequence if the mapping has no
    such key. An error of the tag store is returned as it is. *)
Theorem list_with_tags
    (TagListMapByArticleIDs : list Z → DB → result (gmap Z (list Tag.t)))
    (w : World) :
  fault_at w (ncalls w) = None →
  let rows := articles (db w) in
  let ids := r_id <$> rows in
  let answer := (ArticleListWithTags TagListMapByArticleIDs w).1 in
  let after := (ArticleListWithTags TagListMapByArticleIDs w).2 in
  trace after = trace w ++ [EQuery SelectIdTitle; ETagListMapByArticleIDs ids] ∧
  db after = db w ∧
  (∀ e, TagListMapByArticleIDs ids (db w) = Err e → answer = Return (Err e)) ∧
  (∀ m, TagListMapByArticleIDs ids (db w) = Ok m →
     ∃ l, answer = Return (Ok l) ∧
          length l = length rows ∧
          ∀ (i : nat) r, rows !! i = Some r →
            ∃ a, l !! i = Some a ∧
                 a = Article.set_Tags (Article.Tags a)
                       (of_id_title (r_id r) (r_title r)) ∧
                 Article.Tags a = default [] (m !! r_id r) ∧
                 (m !! r_id r = None → Article.Tags a = [])).
Proof.
  intros H0 rows ids answer after. subst answer after.
  rewrite ArticleListWithTags_healthy by done. fold rows. fold ids.
  cbn [fst snd]. split; [|split; [|split]].
  - cbn. by rewrite <- app_assoc.
  - done.
  - by intros e ->.
  - intros m ->. eexists. split; [reflexivity|].
    split; [by rewrite length_fmap|].
    intros i r Hr. rewrite list_lookup_fmap, Hr. cbn.
    eexists. split; [reflexivity|]. unfold index. cbn.
    repeat split. by intros ->.
Qed.

Lemma list_with_tags_witness :
  let w := sample.world sample.blog 200 sample.reliable in
  let answer := (ArticleListWithTags tag_repository.TagListMapByArticleIDs w).1 in
  let after := (ArticleListWithTags tag_repository.TagListMapByArticleIDs w).2 in
  trace after = [EQuery SelectIdTitle; ETagListMapByArticleIDs [1; 2; 3; 4]] ∧
  ∃ l, answer = Return (Ok l) ∧
       length l = 4%nat ∧
       ∃ a, l !! 1%nat = Some a ∧ Article.ID a = 2 ∧ Article.Title a = "Draft" ∧
            Article.Tags a = [].
Proof.
  intros w answer after.
  destruct (list_with_tags tag_repository.TagListMapByArticleIDs w eq_refl)
    as (Htrace & _ & _ & Hok).
  split; [exact Htrace|].
  destruct (Hok _ eq_refl) as (l & Hl & Hlen & Hrows).
  exists l. split; [exact Hl|]. split; [exact Hlen|].
  destruct (Hrows 1%nat _ eq_refl) as (a & Ha & Hshape & _ & Hempty).
  exists a. split; [exact Ha|].
  rewrite Hshape. split; [done|]. split; [done|].
  apply Hempty. vm_compute. reflexivity.
Defined.

(** On the sample database: articles 2 and 4 have no tags and no key in the
    mapping, and are listed with an empty tag sequence. *)
Example list_with_tags_of_the_sample :
  (ArticleListWithTags tag_repository.TagListMapByArticleIDs
     (sample.world sample.blog 200 sample.reliable)).1
  = Return (Ok [ Article.set_Tags [Tag.mk 1 "go"; Tag.mk 2 "sql"]
                   (of_id_title 1 "Hello");
                 of_id_title 2 "Draft";
                 Article.set_Tags [Tag.mk 2 "sql"] (of_id_title 3 "Guest");
                 of_id_title 4 "Anon" ]).
Proof. vm_compute. reflexivity. Qed.

Example mapping_of_the_sample_has_no_key_for_untagged :
  match tag_repository.TagListMapByArticleIDs [1; 2; 3; 4] sample.blog with
  | Ok m => (m !! 2, m !! 4, length <$> m !! 1)
  | Err _ => (None, None, None)
  end = (None, None, Some 2%nat).
Proof. vm_compute. reflexivity. Qed.

(* ===================================================================== *)
(** ** Reads, whatever the backend does *)
(* ===================================================================== *)

Lemma Get_run {X} `{StructScan X} (q : Query X) w :
  Get q w = (Return match fault_at w (ncalls w) with
                    | Some e => Err e
                    | None => match run q (db w) with
                              | [] => Err ErrNoRows
                              | x :: _ => scan x
                              end
                    end,
             tick (log (EQuery q) w)).
Proof.
  unfold Get, mbind, M_bind, mret, M_ret, call, gets.
  destruct (fault_at w (ncalls w)); [done|]. cbn. by destruct (run q (db w)).
Qed.

Lemma Select_run {X} `{StructScan X} (q : Query X) w :
  Select q w = (Return match fault_at w (ncalls w) with
                       | Some e => Err e
                       | None => scan_all (run q (db w))
                       end,
                tick (log (EQuery q) w)).
Proof.
  unfold Select, mbind, M_bind, mret, M_ret, call, gets.
  by destruct (fault_at w (ncalls w)).
Qed.

Lemma Get_reads_once {X} `{StructScan X} (q : Query X) w :
  reads_once (Get q) (EQuery q) w.
Proof. unfold reads_once. by rewrite Get_run. Qed.

Lemma Select_reads_once {X} `{StructScan X} (q : Query X) w :
  reads_once (Select q) (EQuery q) w.
Proof. unfold reads_once. by rewrite Select_run. Qed.

(** X3. GetByID, ListByCursor, GetWithWriterName, GetWithWriter and
    ListByWriterID each make exactly one call to the backend, whatever it
    answers, open no transaction and leave the database and the caller's
    memory as they were; when that call fails, its error is what the
    operation returns. *)
Theorem reads_call_once_and_pass_failures_on
    (w : World) (id cursor writerID : Z) :
  reads_once (ArticleGetByID id) (EQuery (SelectByID id)) w ∧
  reads_once (ArticleListByCursor cursor)
             (EQuery (SelectByCursor (effective cursor))) w ∧
  reads_once (ArticleGetWithWriterName id) (EQuery (SelectWithWriterName id)) w ∧
  reads_once (ArticleGetWithWriter id) (EQuery (SelectWithWriter id)) w ∧
  reads_once (ArticleListByWriterID writerID)
             (EQuery (SelectByWriterID writerID)) w ∧
  ∀ e, fault_at w (ncalls w) = Some e →
    (ArticleGetByID id w).1 = Return (Err e) ∧
    (ArticleListByCursor cursor w).1 = Return (Err e) ∧
    (ArticleGetWithWriterName id w).1 = Return (Err e) ∧
    (ArticleGetWithWriter id w).1 = Return (Err e) ∧
    (ArticleListByWriterID writerID w).1 = Return (Err e).
Proof.
  unfold ArticleGetByID, ArticleListByCursor, ArticleGetWithWriterName,
    ArticleGetWithWriter, ArticleListByWriterID.
  fold (effective cursor).
  repeat split; try apply Get_reads_once; try apply Select_reads_once;
    rewrite ?Get_run, ?Select_run; cbn; by rewrite H.
Qed.

Lemma reads_call_once_and_pass_failures_on_witness :
  let w := sample.world sample.blog 200 (sample.failing 0 (ErrBackend 2006)) in
  (ArticleGetByID 1 w).1 = Return (Err (ErrBackend 2006)) ∧
  (ArticleListByCursor 0 w).1 = Return (Err (ErrBackend 2006)) ∧
  (ArticleGetWithWriterName 1 w).1 = Return (Err (ErrBackend 2006)) ∧
  (ArticleGetWithWriter 1 w).1 = Return (Err (ErrBackend 2006)) ∧
  (ArticleListByWriterID 7 w).1 = Return (Err (ErrBackend 2006)).
Proof.
  intros w.
  destruct (reads_call_once_and_pass_failures_on w 1 0 7) as (_ & _ & _ & _ & _ & H).
  exact (H (ErrBackend 2006) eq_refl).
Defined.

(* ===================================================================== *)
(** ** Mutations that never reach their statement *)
(* ===================================================================== *)

(** X4. When the backend refuses to open the transaction, Create, Update
    and Delete panic with its error instead of returning it: the statement is
    never sent, no rollback is attempted, and the committed database and the
    transaction state are what they were. *)
Theorem begin_failure_panics
    (w : World) (article : ptr) (a : Article.t) (id : Z) (e : error) :
  fault_at w (ncalls w) = Some e →
  heap w !! article = Some a →
  let c := ArticleCreate article w in
  let u := ArticleUpdate article w in
  let d := ArticleDelete id w in
  c.1 = Panic (PanicError e) ∧ u.1 = Panic (PanicError e) ∧
  d.1 = Panic (PanicError e) ∧
  db c.2 = db w ∧ db u.2 = db w ∧ db d.2 = db w ∧
  tx c.2 = tx w ∧ tx u.2 = tx w ∧ tx d.2 = tx w ∧
  trace c.2 = trace w ++ [EBegin] ∧ trace u.2 = trace w ++ [EBegin] ∧
  trace d.2 = trace w ++ [EBegin].
Proof.
  intros H0 Ha c u d. subst c u d. step. rewrite Ha. cbn.
  rewrite !lookup_insert_eq. cbn. rewrite H0. cbn. repeat split.
Qed.

Lemma begin_failure_panics_witness :
  let w := sample.world sample.blog 200 (sample.failing 0 (ErrBackend 1040)) in
  (ArticleCreate 1%positive w).1 = Panic (PanicError (ErrBackend 1040)) ∧
  (ArticleUpdate 1%positive w).1 = Panic (PanicError (ErrBackend 1040)) ∧
  (ArticleDelete 1 w).1 = Panic (PanicError (ErrBackend 1040)) ∧
  db (ArticleCreate 1%positive w).2 = sample.blog ∧
  db (ArticleUpdate 1%positive w).2 = sample.blog ∧
  db (ArticleDelete 1 w).2 = sample.blog.
Proof.
  intros w.
  destruct (begin_failure_panics w 1%positive sample.draft 1 (ErrBackend 1040)
              eq_refl eq_refl)
    as (Hc & Hu & Hd & Hdc & Hdu & Hdd & _).
  exact (conj Hc (conj Hu (conj Hd (conj Hdc (conj Hdu Hdd))))).
Defined.

(** X5. Create and Update called with a pointer to no article panic on the
    first field assignment, before anything reaches the backend: the world
    is left exactly as it was. *)
Theorem nil_article_panics_before_any_call (w : World) (article : ptr) :
  heap w !! article = None →
  ArticleCreate article w = (Panic NilDereference, w) ∧
  ArticleUpdate article w = (Panic NilDereference, w).
Proof. intros Ha. step. by rewrite Ha. Qed.

Lemma nil_article_panics_before_any_call_witness :
  let w := sample.world sample.blog 200 sample.reliable in
  ArticleCreate 2%positive w = (Panic NilDereference, w) ∧
  ArticleUpdate 2%positive w = (Panic NilDereference, w).
Proof.
  exact (nil_article_panics_before_any_call
           (sample.world sample.blog 200 sample.reliable) 2%positive eq_refl).
Defined.

(* ===================================================================== *)
(** ** Update and Delete on the rows they find *)
(* ===================================================================== *)

Lemma update_nothing t b u id rows :
  (∀ r, r ∈ rows → r_id r ≠ id) →
  (λ r, if has_id id r then update_row t b u r else r) <$> rows = rows ∧
  changed id (update_row t b u) rows = [].
Proof.
  intros Hno. split.
  - rewrite <- (list_fmap_id rows) at 2. apply list_fmap_ext.
    intros i r Hr. cbn.
    destruct (has_id id r) eqn:Hid; [|done].
    apply has_id_true in Hid. apply list_elem_of_lookup_2 in Hr.
    by apply Hno in Hr.
  - apply filter_none. intros r Hr [Hid _]. apply has_id_true in Hid.
    by apply Hno in Hr.
Qed.

(** X6. On a healthy backend, Update for an ID no row has returns no error:
    it reports zero affected rows and the database is what it was. *)
Theorem update_of_a_missing_id (w : World) (article : ptr) (a : Article.t) :
  healthy 3 w →
  heap w !! article = Some a →
  (∀ r, r ∈ articles (db w) → r_id r ≠ Article.ID a) →
  ∃ w', ArticleUpdate article w
          = (Return (Ok {| LastInsertId := 0; RowsAffected := 0 |}), w') ∧
        db w' = db w.
Proof.
  intros H Ha Hno.
  destruct (ArticleUpdate_healthy w article a H Ha) as (w' & Hu & Hdb & _ & _).
  destruct (update_nothing (Article.Title a) (Article.Body a) (clock w)
              (Article.ID a) (articles (db w)) Hno) as [Hsame Hnone].
  exists w'. rewrite Hu, Hdb. cbn [exec fst snd].
  rewrite Hsame, Hnone. split; [done|]. apply set_articles_id.
Qed.

Lemma update_of_a_missing_id_witness :
  ∃ w', ArticleUpdate 1%positive
          (sample.world_of sample.stranger sample.fifteen 200 sample.reliable)
          = (Return (Ok {| LastInsertId := 0; RowsAffected := 0 |}), w') ∧
        db w' = sample.fifteen.
Proof.
  apply (update_of_a_missing_id
           (sample.world_of sample.stranger sample.fifteen 200 sample.reliable)
           1%positive sample.stranger).
  - intros i _. reflexivity.
  - reflexivity.
  - intros r Hr. rows_of Hr; discriminate.
Defined.

Lemma filter_has_id_fmap id (f : ArticleRow → ArticleRow) (rows : list ArticleRow) :
  (∀ r, r_id (f r) = r_id r) →
  filter (λ r, has_id id r = true) (f <$> rows)
  = f <$> filter (λ r, has_id id r = true) rows.
Proof.
  intros Hf. induction rows as [|r rows IH]; [done|].
  rewrite fmap_cons, !filter_cons, IH.
  unfold has_id. rewrite Hf. by destruct (decide _).
Qed.

(** The rows with the id, once the UPDATE ran: the same rows, rewritten. *)
Lemma select_updated t b u id d :
  run (SelectByID id) (exec (UpdateArticle t b u id) d).1
  = update_row t b u <$> run (SelectByID id) d.
Proof.
  cbn [run exec fst set_articles articles].
  rewrite filter_has_id_fmap by (intros r; by destruct (has_id id r)).
  apply list_fmap_ext. intros i r Hr. apply list_elem_of_lookup_2 in Hr.
  apply list_elem_of_filter in Hr as [Hid _]. by rewrite Hid.
Qed.

(** X7. On a healthy backend, if GetByID answers [before] for the struct's
    ID, then after Update it answers [before] with the title and body of the
    struct and the clock reading of the Update as Updated; Created is the
    stored one, whatever the struct carried. *)
Theorem update_then_get
    (w : World) (article : ptr) (a before : Article.t) :
  healthy 4 w →
  heap w !! article = Some a →
  (ArticleGetByID (Article.ID a) w).1 = Return (Ok before) →
  ∃ res w' w'',
    ArticleUpdate article w = (Return (Ok res), w') ∧
    ArticleGetByID (Article.ID a) w'
      = (Return (Ok {| Article.ID := Article.ID before;
                       Article.Title := Article.Title a;
                       Article.Body := Article.Body a;
                       Article.Created := Article.Created before;
                       Article.Updated := clock w;
                       Article.Writer := Writer.zero;
                       Article.WriterName := "";
                       Article.Tags := [] |}), w'').
Proof.
  intros H Ha Hbefore.
  unfold ArticleGetByID in Hbefore.
  rewrite Get_healthy in Hbefore by (by eapply healthy_0). cbn [fst] in Hbefore.
  destruct (run (SelectByID (Article.ID a)) (db w)) as [|x rest] eqn:Hrows;
    [discriminate|].
  injection Hbefore as <-.
  destruct (ArticleUpdate_healthy w article a) as (w' & Hu & Hdb & Hf & Hn);
    [intros i Hi; apply H; lia | done |].
  eexists _, w', _. split; [exact Hu|].
  unfold ArticleGetByID.
  rewrite Get_healthy by (rewrite Hf, Hn; by eapply healthy_3).
  by rewrite Hdb, select_updated, Hrows.
Qed.

Lemma update_then_get_witness :
  ∃ res w' w'',
    ArticleUpdate 1%positive (sample.world sample.blog 200 sample.reliable)
      = (Return (Ok res), w') ∧
    ArticleGetByID 1 w'
      = (Return (Ok {| Article.ID := 1;
                       Article.Title := "Hello again";
                       Article.Body := "second thoughts";
                       Article.Created := 100;
                       Article.Updated := 200;
                       Article.Writer := Writer.zero;
                       Article.WriterName := "";
                       Article.Tags := [] |}), w'').
Proof.
  exact (update_then_get (sample.world sample.blog 200 sample.reliable)
           1%positive sample.draft
           (of_row (mkArticleRow 1 "Hello" "first post" 100 100 (Some 7)))
           (healthy_reliable _ _ _) eq_refl eq_refl).
Defined.

(** X14. On a healthy backend a second Delete of the same id succeeds like
    the first and changes nothing more. *)
Theorem delete_twice (w : World) (id : Z) :
  healthy 6 w →
  ∃ w1 w2,
    ArticleDelete id w = (Return None, w1) ∧
    ArticleDelete id w1 = (Return None, w2) ∧
    db w2 = db w1 ∧
    RowsAffected (exec (DeleteArticle id) (db w1)).2 = 0.
Proof.
  intros H.
  destruct (ArticleDelete_healthy w id) as (w1 & Hd1 & Hdb1 & Hf1 & Hn1);
    [intros i Hi; apply H; lia |].
  destruct (ArticleDelete_healthy w1 id) as (w2 & Hd2 & Hdb2 & _ & _).
  { intros i Hi. rewrite Hf1, Hn1.
    replace (S (S (S (ncalls w))) + i)%nat with (ncalls w + (3 + i))%nat by lia.
    apply H. lia. }
  assert (∀ r, r ∈ articles (db w1) → r_id r ≠ id) as Hgone.
  { intros r. rewrite Hdb1. cbn [exec fst set_articles articles].
    rewrite list_elem_of_filter, has_id_false. tauto. }
  exists w1, w2. split; [exact Hd1|]. split; [exact Hd2|]. split.
  - rewrite Hdb2. cbn [exec fst]. rewrite filter_all.
    + apply set_articles_id.
    + intros r Hr. rewrite has_id_false. by apply Hgone.
  - cbn [exec snd RowsAffected]. rewrite filter_none; [done|].
    intros r Hr. rewrite has_id_true. by apply Hgone.
Qed.

Lemma delete_twice_witness :
  ∃ w1 w2,
    ArticleDelete 2 (sample.world sample.blog 200 sample.reliable)
      = (Return None, w1) ∧
    ArticleDelete 2 w1 = (Return None, w2) ∧
    db w2 = db w1 ∧
    RowsAffected (exec (DeleteArticle 2) (db w1)).2 = 0.
Proof.
  exact (delete_twice (sample.world sample.blog 200 sample.reliable) 2
           (healthy_reliable _ _ _)).
Defined.

(* ===================================================================== *)
(** ** What Create stores *)
(* ===================================================================== *)

Lemma no_joined_rows d id :
  (∀ r, r ∈ articles d → r_id r = id → r_writer_id r = None) →
  filter (λ aw, has_id id aw.1 = true) (inner_join d) = [].
Proof.
  intros Hnull. apply filter_none. intros [a wr] Hin Hid. cbn in Hid.
  apply has_id_true in Hid. apply elem_of_inner_join in Hin as (Ha & _ & Hj).
  rewrite (Hnull a Ha Hid) in Hj. discriminate.
Qed.

(** The row an INSERT adds has a NULL writer_id. *)
Lemma inserted_has_no_writer d t b c u r :
  wf_DB d →
  r ∈ articles (exec (InsertArticle t b c u) d).1 →
  r_id r = next_id d →
  r_writer_id r = None.
Proof.
  intros Hwf Hr Hid. cbn [exec fst set_articles articles] in Hr.
  apply elem_of_app in Hr as [Hr|Hr].
  - by apply (wf_fresh d r Hwf) in Hr.
  - apply list_elem_of_singleton in Hr. by subst r.
Qed.

(** X8. The INSERT of Create names no writer: on a healthy backend, for the
    identity Create reports, GetWithWriterName and GetWithWriter both answer
    sql.ErrNoRows, and ListByWriterID lists the new article for no writer. *)
Theorem created_article_has_no_writer
    (w : World) (article : ptr) (a : Article.t) :
  wf_DB (db w) →
  healthy 4 w →
  heap w !! article = Some a →
  ∃ res w',
    ArticleCreate article w = (Return (Ok res), w') ∧
    (ArticleGetWithWriterName (LastInsertId res) w').1 = Return (Err ErrNoRows) ∧
    (ArticleGetWithWriter (LastInsertId res) w').1 = Return (Err ErrNoRows) ∧
    ∀ writerID, ∃ l,
      (ArticleListByWriterID writerID w').1 = Return (Ok l) ∧
      ∀ x, x ∈ l → Article.ID x ≠ LastInsertId res.
Proof.
  intros Hwf H Ha.
  destruct (ArticleCreate_healthy w article a) as (w' & Hc & Hdb & Hf & Hn);
    [intros i Hi; apply H; lia | done |].
  assert (fault_at w' (ncalls w') = None) as H3
    by (rewrite Hf, Hn; by eapply healthy_3).
  set (insert := InsertArticle (Article.Title a) (Article.Body a)
                               (clock w) (clock w)) in *.
  assert (∀ r, r ∈ articles (db w') → r_id r = next_id (db w) →
               r_writer_id r = None) as Hnull.
  { intros r. rewrite Hdb. by apply inserted_has_no_writer. }
  exists (exec insert (db w)).2, w'. split; [exact Hc|].
  change (LastInsertId (exec insert (db w)).2) with (next_id (db w)).
  unfold ArticleGetWithWriterName, ArticleGetWithWriter, ArticleListByWriterID.
  rewrite !Get_healthy by done. cbn [fst run].
  rewrite not_null_is_implied, no_joined_rows by done.
  split; [done|]. split; [done|].
  intros writerID. rewrite Select_healthy, scan_all_rows by done.
  eexists. split; [reflexivity|].
  intros x Hx Hid. apply list_elem_of_fmap in Hx as (r & -> & Hr).
  cbn [run] in Hr. apply list_elem_of_filter in Hr as [Hw Hr].
  rewrite (Hnull r Hr Hid) in Hw. discriminate.
Qed.

Lemma created_article_has_no_writer_witness :
  ∃ res w',
    ArticleCreate 1%positive (sample.world sample.blog 200 sample.reliable)
      = (Return (Ok res), w') ∧
    (ArticleGetWithWriterName (LastInsertId res) w').1 = Return (Err ErrNoRows) ∧
    (ArticleGetWithWriter (LastInsertId res) w').1 = Return (Err ErrNoRows) ∧
    ∀ writerID, ∃ l,
      (ArticleListByWriterID writerID w').1 = Return (Ok l) ∧
      ∀ x, x ∈ l → Article.ID x ≠ LastInsertId res.
Proof.
  apply (created_article_has_no_writer
           (sample.world sample.blog 200 sample.reliable) 1%positive sample.draft).
  - unfold wf_DB. cbn. repeat constructor.
  - apply healthy_reliable.
  - reflexivity.
Defined.

(** X16. Of the caller's struct, Create reads the title and the body only,
    and Update the ID, the title and the body: two calls whose structs agree
    on these return the same value and leave the same database and the same
    log, whatever the backend does. *)
Theorem only_title_body_and_id_are_read
    (w : World) (article : ptr) (a1 a2 : Article.t) :
  Article.Title a1 = Article.Title a2 →
  Article.Body a1 = Article.Body a2 →
  let w1 := set_heap (<[article := a1]> (heap w)) w in
  let w2 := set_heap (<[article := a2]> (heap w)) w in
  ((ArticleCreate article w1).1 = (ArticleCreate article w2).1 ∧
   db (ArticleCreate article w1).2 = db (ArticleCreate article w2).2 ∧
   trace (ArticleCreate article w1).2 = trace (ArticleCreate article w2).2) ∧
  (Article.ID a1 = Article.ID a2 →
   (ArticleUpdate article w1).1 = (ArticleUpdate article w2).1 ∧
   db (ArticleUpdate article w1).2 = db (ArticleUpdate article w2).2 ∧
   trace (ArticleUpdate article w1).2 = trace (ArticleUpdate article w2).2).
Proof.
  intros Ht Hb w1 w2. subst w1 w2. split; [|intros Hid].
  - step. rewrite !lookup_insert_eq. cbn. rewrite !lookup_insert_eq. cbn.
    destruct (fault_at w (ncalls w)); cbn; [done|].
    rewrite !lookup_insert_eq. cbn. unfold insert_article. cbn.
    rewrite Ht, Hb.
    destruct (fault_at w (S (ncalls w))); cbn; [done|].
    by destruct (fault_at w (S (S (ncalls w)))).
  - step. rewrite !lookup_insert_eq. cbn.
    destruct (fault_at w (ncalls w)); cbn; [done|].
    rewrite !lookup_insert_eq. cbn. unfold update_article. cbn.
    rewrite Ht, Hb, Hid.
    destruct (fault_at w (S (ncalls w))); cbn; [done|].
    by destruct (fault_at w (S (S (ncalls w)))).
Qed.

Lemma only_title_body_and_id_are_read_witness :
  let other := Article.set_Updated 7 (Article.set_Created 3 sample.draft) in
  let w1 := sample.world_of sample.draft sample.blog 200 sample.reliable in
  let w2 := sample.world_of other sample.blog 200 sample.reliable in
  (ArticleCreate 1%positive w1).1 = (ArticleCreate 1%positive w2).1 ∧
  db (ArticleCreate 1%positive w1).2 = db (ArticleCreate 1%positive w2).2 ∧
  (ArticleUpdate 1%positive w1).1 = (ArticleUpdate 1%positive w2).1 ∧
  db (ArticleUpdate 1%positive w1).2 = db (ArticleUpdate 1%positive w2).2.
Proof.
  intros other w1 w2.
  destruct (only_title_body_and_id_are_read
              (sample.world sample.blog 200 sample.reliable) 1%positive
              sample.draft other eq_refl eq_refl)
    as [(Hc & Hcd & _) Hu].
  destruct (Hu eq_refl) as (Hu1 & Hud & _).
  exact (conj Hc (conj Hcd (conj Hu1 Hud))).
Defined.

(* ===================================================================== *)
(** ** The invariant of the stored identities *)
(* ===================================================================== *)

Lemma exec_sound s d : sound d → sound (exec s d).1.
Proof.
  intros [Hwf [Ha Hw]]. split; [by apply exec_wf|]. split; [|by destruct s].
  destruct s as [t b c u | t b u id | id]; cbn [exec fst set_articles articles].
  - rewrite fmap_app. apply NoDup_app. split; [done|]. split.
    + intros k Hk Hnew. apply list_elem_of_singleton in Hnew.
      apply list_elem_of_fmap in Hk as (r & -> & Hr).
      by apply (wf_fresh d r Hwf) in Hr.
    + apply NoDup_singleton.
  - rewrite <- list_fmap_compose.
    erewrite list_fmap_ext; [exact Ha|].
    intros i r _. cbn. by destruct (has_id id r).
  - eapply sublist_NoDup; [exact Ha|].
    apply fmap_sublist, sublist_filter.
Qed.

(** The committed database after a mutation is the one before, or the one
    its statement makes of it. *)
Lemma mutation_outcomes w article id :
  let after (d : DB) := d = db w ∨ ∃ s, d = (exec s (db w)).1 in
  after (db (ArticleCreate article w).2) ∧
  after (db (ArticleUpdate article w).2) ∧
  after (db (ArticleDelete id w).2).
Proof.
  cbn zeta. step.
  destruct (heap w !! article) as [a|]; cbn; rewrite ?lookup_insert_eq; cbn;
    destruct (fault_at w (ncalls w)); cbn; rewrite ?lookup_insert_eq; cbn;
    try destruct (fault_at w (S (ncalls w))); cbn;
    try destruct (fault_at w (S (S (ncalls w)))); cbn;
    repeat split;
    first [ by left
          | right;
            first [ by exists (DeleteArticle id)
                  | by exists (update_article (Article.set_Updated (clock w) a))
                  | by exists (insert_article
                                 (Article.set_Updated (clock w)
                                    (Article.set_Created (clock w) a))) ] ].
Qed.

(** X10. Create, Update and Delete keep the stored identities unique and
    below the counter, for every caller input and whatever the backend does
    (failure of any call, panic included). *)
Theorem mutations_keep_identities_unique
    (w : World) (article : ptr) (id : Z) :
  sound (db w) →
  sound (db (ArticleCreate article w).2) ∧
  sound (db (ArticleUpdate article w).2) ∧
  sound (db (ArticleDelete id w).2).
Proof.
  intros Hs.
  destruct (mutation_outcomes w article id) as (Hc & Hu & Hd).
  split; [|split].
  - destruct Hc as [->|[s ->]]; [done | by apply exec_sound].
  - destruct Hu as [->|[s ->]]; [done | by apply exec_sound].
  - destruct Hd as [->|[s ->]]; [done | by apply exec_sound].
Qed.

Lemma sound_sample : sound sample.blog.
Proof.
  split; [|exact (proj1 unique_ids_sample)].
  unfold wf_DB. cbn. repeat constructor.
Qed.

Lemma mutations_keep_identities_unique_witness :
  let w := sample.world sample.blog 200 sample.reliable in
  sound (db (ArticleCreate 1%positive w).2) ∧
  sound (db (ArticleUpdate 1%positive w).2) ∧
  sound (db (ArticleDelete 3 w).2).
Proof.
  exact (mutations_keep_identities_unique
           (sample.world sample.blog 200 sample.reliable) 1%positive 3
           sound_sample).
Defined.

(* ===================================================================== *)
(** ** The other reads *)
(* ===================================================================== *)

(** X11. When its query reaches the backend, GetWithWriter answers
    sql.ErrNoRows exactly when no article row with the id is linked to a
    writer row; with unique identities, for an article linked to a writer
    with a stored name it returns an article whose ID and Title are the id
    and the row's title and whose nested Writer has the writer's id and
    name, and it fails with a scan error, not with sql.ErrNoRows, when the
    stored name is NULL. *)
Theorem get_with_writer (w : World) (id : Z) :
  fault_at w (ncalls w) = None →
  let d := db w in
  let answer := (ArticleGetWithWriter id w).1 in
  (answer = Return (Err ErrNoRows) ↔
     ¬ ∃ r wr, r ∈ articles d ∧ wr ∈ writers d ∧ r_id r = id ∧
               r_writer_id r = Some (w_id wr)) ∧
  (unique_ids d →
   ∀ r wr, r ∈ articles d → wr ∈ writers d → r_id r = id →
           r_writer_id r = Some (w_id wr) →
     match w_name wr with
     | Some name =>
         ∃ got, answer = Return (Ok got) ∧
                Article.ID got = id ∧
                Article.Title got = r_title r ∧
                Writer.ID (Article.Writer got) = w_id wr ∧
                Writer.Name (Article.Writer got) = name ∧
                Article.WriterName got = ""
     | None => answer = Return (Err (ErrScanNull "writer.name"))
     end).
Proof.
  intros H0 d answer. subst d answer. unfold ArticleGetWithWriter.
  rewrite Get_healthy by done. cbn [fst run].
  set (rows := filter _ (inner_join (db w))).
  assert (∀ r wr, (r, wr) ∈ rows ↔
            r ∈ articles (db w) ∧ wr ∈ writers (db w) ∧ r_id r = id ∧
            r_writer_id r = Some (w_id wr)) as Hrows
    by (intros; apply joined_rows).
  split.
  - destruct (head_elem rows) as [Hnil|([r wr] & l' & Heq & Hin)].
    + rewrite Hnil. split; [|done]. intros _ (r & wr & Hr).
      apply Hrows in Hr. rewrite Hnil in Hr. by apply elem_of_nil in Hr.
    + rewrite Heq. cbn. split.
      * destruct (w_name wr); discriminate.
      * intros Hno. exfalso. apply Hno. exists r, wr. by apply Hrows.
  - intros Hu r wr Hr Hwr Hid Hj.
    destruct (head_elem rows) as [Hnil|(x & l' & Heq & Hin)].
    + assert ((r, wr) ∈ rows) as Hin by (by apply Hrows).
      rewrite Hnil in Hin. by apply elem_of_nil in Hin.
    + rewrite Heq. subst rows.
      rewrite (joined_rows_unique (db w) id r wr x Hu Hr Hwr Hid Hj Hin).
      cbn. destruct (w_name wr) as [name|]; [|done].
      eexists. split; [reflexivity|]. done.
Qed.

Lemma get_with_writer_witness :
  let w := sample.world sample.blog 200 sample.reliable in
  (∃ got, (ArticleGetWithWriter 1 w).1 = Return (Ok got) ∧
          Article.ID got = 1 ∧ Article.Title got = "Hello" ∧
          Writer.ID (Article.Writer got) = 7 ∧
          Writer.Name (Article.Writer got) = "gopher" ∧
          Article.WriterName got = "") ∧
  (ArticleGetWithWriter 3 w).1 = Return (Err (ErrScanNull "writer.name")) ∧
  (∃ got, (ArticleGetWithWriter 4 w).1 = Return (Ok got) ∧
          Article.ID got = 4 ∧ Article.Title got = "Anon" ∧
          Writer.ID (Article.Writer got) = 9 ∧
          Writer.Name (Article.Writer got) = "" ∧
          Article.WriterName got = "").
Proof.
  intros w.
  destruct (get_with_writer w 1 eq_refl) as (_ & Hhello).
  destruct (get_with_writer w 3 eq_refl) as (_ & Hguest).
  destruct (get_with_writer w 4 eq_refl) as (_ & Hanon).
  split; [|split].
  - apply (Hhello (proj1 unique_ids_sample)
             (mkArticleRow 1 "Hello" "first post" 100 100 (Some 7))
             (mkWriterRow 7 (Some "gopher"))); [set_solver | set_solver | done | done].
  - apply (Hguest (proj1 unique_ids_sample)
             (mkArticleRow 3 "Guest" "writer without a name" 100 100 (Some 8))
             (mkWriterRow 8 None)); [set_solver | set_solver | done | done].
  - apply (Hanon (proj1 unique_ids_sample)
             (mkArticleRow 4 "Anon" "writer with an empty name" 100 100 (Some 9))
             (mkWriterRow 9 (Some ""))); [set_solver | set_solver | done | done].
Defined.

(** X12. When its query reaches the backend, GetByID answers sql.ErrNoRows
    exactly when no article row has the id. Otherwise it succeeds whether or
    not the article has a writer: the article returned carries the id, the
    title, the body and the two timestamps of a row of that id (of the row,
    when identities are unique), and its Writer, WriterName and Tags are at
    their zero values. *)
Theorem get_by_id (w : World) (id : Z) :
  fault_at w (ncalls w) = None →
  let d := db w in
  let answer := (ArticleGetByID id w).1 in
  (answer = Return (Err ErrNoRows) ↔ ∀ r, r ∈ articles d → r_id r ≠ id) ∧
  (∀ r, r ∈ articles d → r_id r = id →
     ∃ r' got, r' ∈ articles d ∧ r_id r' = id ∧
               answer = Return (Ok got) ∧ shows got r' ∧ unjoined got) ∧
  (NoDup (r_id <$> articles d) →
   ∀ r, r ∈ articles d → r_id r = id →
     ∃ got, answer = Return (Ok got) ∧
            Article.ID got = id ∧
            Article.Title got = r_title r ∧
            Article.Body got = r_body r ∧
            Article.Created got = r_created r ∧
            Article.Updated got = r_updated r ∧
            Article.Writer got = Writer.zero ∧
            Article.WriterName got = "" ∧
            Article.Tags got = []).
Proof.
  intros H0 d answer. subst d answer. unfold ArticleGetByID.
  rewrite Get_healthy by done. cbn [fst run].
  set (rows := filter _ (articles (db w))).
  assert (∀ r, r ∈ rows ↔ r_id r = id ∧ r ∈ articles (db w)) as Hrows.
  { intros r. subst rows. by rewrite list_elem_of_filter, has_id_true. }
  destruct (head_elem rows) as [Hnil|(x & l' & Heq & Hin)].
  - rewrite Hnil.
    assert (∀ r, r ∈ articles (db w) → r_id r ≠ id) as Hno.
    { intros r Hr Hid. assert (r ∈ rows) as Hin by (by apply Hrows).
      rewrite Hnil in Hin. by apply elem_of_nil in Hin. }
    split; [done|]. split.
    + intros r Hr Hid. by apply Hno in Hr.
    + intros _ r Hr Hid. by apply Hno in Hr.
  - rewrite Heq. cbn. apply Hrows in Hin as [Hid Hx]. split; [|split].
    + split; [discriminate|]. intros Hno. by apply Hno in Hx.
    + intros r _ _. exists x. eexists. split; [done|]. split; [done|].
      split; [reflexivity|]. apply of_row_shows.
    + intros Hu r Hr Hidr. assert (x = r) as ->.
      { apply (NoDup_fmap_eq r_id (articles (db w))); [done..|].
        by rewrite Hid, Hidr. }
      eexists. split; [reflexivity|]. cbn. by rewrite Hidr.
Qed.

Lemma get_by_id_witness :
  let w := sample.world sample.blog 200 sample.reliable in
  (ArticleGetByID 9 w).1 = Return (Err ErrNoRows) ∧
  ∃ got, (ArticleGetByID 2 w).1 = Return (Ok got) ∧
         Article.ID got = 2 ∧ Article.Title got = "Draft" ∧
         Article.Body got = "no writer yet" ∧
         Article.Created got = 100 ∧ Article.Updated got = 100 ∧
         Article.Writer got = Writer.zero ∧ Article.WriterName got = "" ∧
         Article.Tags got = [].
Proof.
  intros w.
  assert (∀ r, r ∈ articles sample.blog → r_id r ≠ 9) as Hno
    by (intros r Hr; rows_of Hr; discriminate).
  destruct (get_by_id w 9 eq_refl) as (Hnone & _).
  destruct (get_by_id w 2 eq_refl) as (_ & _ & Hdraft).
  split.
  - apply Hnone, Hno.
  - apply (Hdraft (proj1 (proj1 unique_ids_sample))
             (mkArticleRow 2 "Draft" "no writer yet" 100 100 None)); [|done].
    clear. set_solver.
Defined.

Lemma shows_elem (answer : list Article.t) (rows : list ArticleRow) a :
  Forall2 shows answer rows → a ∈ answer → ∃ r, r ∈ rows ∧ shows a r.
Proof.
  intros Hall Ha. apply list_elem_of_lookup_1 in Ha as [i Hi].
  destruct (Forall2_lookup_l _ _ _ _ _ Hall Hi) as (r & Hr & Hshows).
  exists r. split; [|done]. by eapply list_elem_of_lookup_2.
Qed.

(** X1. When its query reaches the backend, ListByWriterID returns one
    article per row whose writer_id is the given id, in the order of the
    table and without a limit, each carrying the id, title, body and
    timestamps of its row with Writer, WriterName and Tags at their zero
    values; an article without a writer is listed for no id. No matching
    row gives the empty sequence. *)
Theorem list_by_writer_id (w : World) (writerID : Z) :
  fault_at w (ncalls w) = None →
  ∃ (answer : list Article.t) (rows : list ArticleRow),
    (ArticleListByWriterID writerID w).1 = Return (Ok answer) ∧
    Forall2 shows answer rows ∧
    Forall unjoined answer ∧
    rows `sublist_of` articles (db w) ∧
    (∀ r, r ∈ rows ↔ r ∈ articles (db w) ∧ r_writer_id r = Some writerID) ∧
    length rows
      = length (filter (λ r, r_writer_id r = Some writerID) (articles (db w))) ∧
    ((∀ r, r ∈ articles (db w) → r_writer_id r ≠ Some writerID) →
       answer = [] ∧ rows = []).
Proof.
  intros H0. unfold ArticleListByWriterID.
  rewrite Select_healthy, scan_all_rows by done. cbn [fst run].
  do 2 eexists. split; [reflexivity|]. split; [apply of_rows_show|].
  split; [|split; [apply sublist_filter|split; [|split; [done|]]]].
  - apply Forall_fmap, Forall_forall. intros r _. apply of_row_shows.
  - intros r. rewrite list_elem_of_filter. tauto.
  - intros Hno. by rewrite filter_none.
Qed.

Lemma list_by_writer_id_witness :
  let w := sample.world sample.blog 200 sample.reliable in
  (ArticleListByWriterID 5 w).1 = Return (Ok []) ∧
  ∃ answer,
    (ArticleListByWriterID 7 w).1 = Return (Ok answer) ∧
    length answer = 1%nat ∧
    ∀ a, a ∈ answer →
      Article.ID a = 1 ∧ Article.Title a = "Hello" ∧
      Article.Body a = "first post" ∧ Article.WriterName a = "".
Proof.
  intros w. split.
  - destruct (list_by_writer_id w 5 eq_refl)
      as (answer & rows & Hanswer & _ & _ & _ & _ & _ & Hnone).
    destruct Hnone as [-> _]; [|exact Hanswer].
    intros r Hr. rows_of Hr; discriminate.
  - destruct (list_by_writer_id w 7 eq_refl)
      as (answer & rows & Hanswer & Hshows & Hbare & _ & Hrows & Hlen & _).
    exists answer. split; [exact Hanswer|]. split.
    + rewrite (Forall2_length _ _ _ Hshows), Hlen. vm_compute. reflexivity.
    + intros a Ha.
      destruct (shows_elem answer rows a Hshows Ha) as (r & Hr & Hid & Ht & Hb & _).
      rewrite Forall_forall in Hbare. destruct (Hbare a Ha) as (_ & Hname & _).
      apply Hrows in Hr as [Hr Hw].
      rewrite Hid, Ht, Hb, Hname. clear -Hr Hw. rows_of Hr; done.
Defined.

Example articles_of_a_writer :
  page_ids (ArticleListByWriterID 7
              (sample.world sample.blog 200 sample.reliable)).1
    = Some [1].
Proof. vm_compute. reflexivity. Qed.

(* ===================================================================== *)
(** ** Reads that go through the tag store *)
(* ===================================================================== *)





Example tags_of_an_article :
  (ArticleGetWithTags tag_repository.TagListByArticleID 1
     (sample.world sample.blog 200 sample.reliable)).1
  = Return (Ok (Article.set_Tags [Tag.mk 1 "go"; Tag.mk 2 "sql"]
                  (of_row (mkArticleRow 1 "Hello" "first post" 100 100 (Some 7))))).
Proof. vm_compute. reflexivity. Qed.

Example tags_of_a_missing_article :
  let r := ArticleGetWithTags tag_repository.TagListByArticleID 9
             (sample.world sample.blog 200 sample.reliable) in
  r.1 = Return (Err ErrNoRows) ∧ trace r.2 = [EQuery (SelectByID 9)].
Proof. vm_compute. split; reflexivity. Qed.

Example tags_when_the_tag_store_is_down :
  (ArticleGetWithTags sample.no_tag_store 1
     (sample.world sample.blog 200 sample.reliable)).1
  = Return (Err (ErrBackend 2002)).
Proof. vm_compute. reflexivity. Qed.

(** X13. When the query of ListWithTags fails, its error is returned and
    the tag store is not called. When the query finds no article, the tag
    store is still called once, with no id, and an error of that call is
    returned although there is no article to tag. *)
Theorem list_with_tags_without_articles
    (TagListMapByArticleIDs : list Z → DB → result (gmap Z (list Tag.t)))
    (w : World) :
  let answer := (ArticleListWithTags TagListMapByArticleIDs w).1 in
  let after := (ArticleListWithTags TagListMapByArticleIDs w).2 in
  (∀ e, fault_at w (ncalls w) = Some e →
     answer = Return (Err e) ∧
     trace after = trace w ++ [EQuery SelectIdTitle]) ∧
  (fault_at w (ncalls w) = None → articles (db w) = [] →
     trace after = trace w ++ [EQuery SelectIdTitle; ETagListMapByArticleIDs []] ∧
     answer = Return match TagListMapByArticleIDs [] (db w) with
                     | Ok _ => Ok []
                     | Err e => Err e
                     end).
Proof.
  cbn zeta. split.
  - intros e He. unfold ArticleListWithTags.
    unfold mbind, M_bind. rewrite Select_run, He. done.
  - intros H0 Hempty. rewrite ArticleListWithTags_healthy by done.
    rewrite Hempty. cbn. rewrite <- app_assoc.
    by destruct (TagListMapByArticleIDs [] (db w)).
Qed.

Lemma list_with_tags_without_articles_witness :
  (ArticleListWithTags tag_repository.TagListMapByArticleIDs
     (sample.world sample.blog 200 (sample.failing 0 (ErrBackend 2006)))).1
    = Return (Err (ErrBackend 2006)) ∧
  (ArticleListWithTags tag_repository.TagListMapByArticleIDs
     (sample.world sample.empty 200 sample.reliable)).1
    = Return (Ok []) ∧
  (ArticleListWithTags sample.no_tag_map
     (sample.world sample.empty 200 sample.reliable)).1
    = Return (Err (ErrBackend 2002)).
Proof.
  destruct (list_with_tags_without_articles
              tag_repository.TagListMapByArticleIDs
              (sample.world sample.blog 200 (sample.failing 0 (ErrBackend 2006))))
    as [Hfail _].
  destruct (list_with_tags_without_articles
              tag_repository.TagListMapByArticleIDs
              (sample.world sample.empty 200 sample.reliable))
    as [_ Hempty].
  destruct (list_with_tags_without_articles sample.no_tag_map
              (sample.world sample.empty 200 sample.reliable))
    as [_ Hdown].
  exact (conj (proj1 (Hfail _ eq_refl))
          (conj (proj2 (Hempty eq_refl eq_refl)) (proj2 (Hdown eq_refl eq_refl)))).
Defined.

(* ===================================================================== *)
(** ** Paging through the articles *)
(* ===================================================================== *)

Section next_page.
Variable (d : DB) (c : Z) (x : ArticleRow).
Hypothesis Hunique : NoDup (r_id <$> articles d).
Hypothesis Hlast : last (below 10 c d) = Some x.

Let S := merge_sort id_desc (filter (λ r, r_id r < c) (articles d)).

Lemma sorted_below_split :
  ∃ p, take 10 S = p ++ [x] ∧ S = (p ++ [x]) ++ drop 10 S.
Proof.
  pose proof Hlast as Hl. apply last_Some in Hl as [p Hp]. exists p.
  unfold below in Hp. fold S in Hp. split; [done|].
  by rewrite <- Hp, take_drop.
Qed.

Lemma sorted_below_sorted : StronglySorted id_desc S.
Proof. apply StronglySorted_merge_sort; apply _. Qed.

Lemma sorted_below_rows r : r ∈ S ↔ r_id r < c ∧ r ∈ articles d.
Proof. unfold S. by rewrite merge_sort_Permutation, list_elem_of_filter. Qed.

Lemma sorted_below_NoDup : NoDup (r_id <$> S).
Proof.
  unfold S. rewrite merge_sort_Permutation.
  eapply sublist_NoDup; [exact Hunique|]. apply fmap_sublist, sublist_filter.
Qed.

Lemma last_below_cursor : r_id x < c.
Proof.
  destruct sorted_below_split as (p & _ & Hp).
  apply sorted_below_rows. rewrite Hp. set_solver.
Qed.

Lemma page_at_least_last r : r ∈ take 10 S → ¬ r_id r < r_id x.
Proof.
  destruct sorted_below_split as (p & Hpage & Hp). intros Hr.
  rewrite Hpage in Hr. apply elem_of_app in Hr as [Hr|Hr].
  - pose proof sorted_below_sorted as Hs. rewrite Hp, <- app_assoc in Hs.
    assert (id_desc r x) as Hrx.
    { eapply (StronglySorted_app_1_elem_of id_desc p); [exact Hs|done|set_solver]. }
    unfold id_desc in Hrx. lia.
  - apply list_elem_of_singleton in Hr. subst r. lia.
Qed.

Lemma rest_below_last r : r ∈ drop 10 S → r_id r < r_id x.
Proof.
  destruct sorted_below_split as (p & _ & Hp). intros Hr.
  pose proof sorted_below_sorted as Hs. rewrite Hp in Hs.
  assert (id_desc x r) as Hxr.
  { eapply (StronglySorted_app_1_elem_of id_desc (p ++ [x]));
      [exact Hs|set_solver|done]. }
  pose proof sorted_below_NoDup as Hnd. rewrite Hp, fmap_app in Hnd.
  apply NoDup_app in Hnd as (_ & Hdisjoint & _).
  assert (r_id x ≠ r_id r) as Hne.
  { intros Heq. apply (Hdisjoint (r_id x)).
    - apply list_elem_of_fmap_2. set_solver.
    - rewrite Heq. by apply list_elem_of_fmap_2. }
  unfold id_desc in Hxr. lia.
Qed.

(** The rows below the last identity of a page are the rows after the
    page. *)
Lemma rows_below_last :
  merge_sort id_desc (filter (λ r, r_id r < r_id x) (articles d)) = drop 10 S.
Proof.
  pose proof last_below_cursor as Hxc.
  apply (StronglySorted_unique_strong id_desc).
  - intros r1 r2 Hr1 Hr2 H12 H21.
    rewrite merge_sort_Permutation in Hr1.
    apply list_elem_of_filter in Hr1 as [_ Hr1].
    assert (r2 ∈ S) as Hr2' by (rewrite <- (take_drop 10 S); set_solver).
    apply sorted_below_rows in Hr2' as [_ Hr2'].
    apply (NoDup_fmap_eq r_id (articles d)); [done..|].
    unfold id_desc in *. lia.
  - apply StronglySorted_merge_sort; apply _.
  - eapply (StronglySorted_app_1_r _ (take 10 S)).
    rewrite take_drop. apply sorted_below_sorted.
  - rewrite merge_sort_Permutation.
    transitivity (filter (λ r, r_id r < r_id x) S).
    + unfold S. rewrite merge_sort_Permutation, list_filter_filter.
      erewrite filter_ext_elem; [reflexivity|]. intros r _. cbn. lia.
    + rewrite <- (take_drop 10 S) at 1. rewrite filter_app.
      rewrite filter_none by (intros r Hr; by apply page_at_least_last).
      rewrite filter_all by (intros r Hr; by apply rest_below_last).
      done.
Qed.

Lemma two_pages : below 10 c d ++ below 10 (r_id x) d = below 20 c d.
Proof.
  unfold below. rewrite rows_below_last. fold S.
  by rewrite take_take_drop.
Qed.

End next_page.

(** X9. Paging by the last identity seen loses and repeats nothing: with
    unique identities and a healthy backend, if ListByCursor returned a page
    whose last article has a positive ID, then ListByCursor on that ID
    returns the page that follows, the two together being the first twenty
    rows below the effective cursor in descending order of id. *)
Theorem consecutive_pages
    (w w' : World) (cursor : Z) (page1 : list Article.t) (x : Article.t) :
  healthy 2 w →
  NoDup (r_id <$> articles (db w)) →
  ArticleListByCursor cursor w = (Return (Ok page1), w') →
  last page1 = Some x →
  0 < Article.ID x →
  ∃ page2 w'',
    ArticleListByCursor (Article.ID x) w' = (Return (Ok page2), w'') ∧
    page1 ++ page2 = of_row <$> below 20 (effective cursor) (db w).
Proof.
  intros H Hu Hpage Hlast Hpos.
  unfold ArticleListByCursor in Hpage. fold (effective cursor) in Hpage.
  rewrite Select_healthy, scan_all_rows in Hpage by (by eapply healthy_0).
  injection Hpage as Hp Hw. subst page1 w'.
  rewrite fmap_last in Hlast.
  fold (below 10 (effective cursor) (db w)) in *.
  destruct (last (below 10 (effective cursor) (db w))) as [r|] eqn:Hr;
    cbn in Hlast; [|discriminate Hlast].
  injection Hlast as <-. cbn in Hpos.
  unfold ArticleListByCursor.
  rewrite bool_decide_eq_false_2 by (cbn; lia).
  rewrite Select_healthy, scan_all_rows by (cbn; by eapply healthy_1).
  do 2 eexists. split; [reflexivity|]. cbn [db tick log of_row Article.ID].
  change (run (SelectByCursor (r_id r)) (db w)) with (below 10 (r_id r) (db w)).
  by rewrite <- fmap_app, two_pages.
Qed.

Lemma fifteen_unique : NoDup (r_id <$> articles sample.fifteen).
Proof. apply (bool_decide_unpack _). vm_compute. exact I. Qed.

Lemma consecutive_pages_witness :
  let w := sample.world sample.fifteen 200 sample.reliable in
  ∃ page2 w'',
    ArticleListByCursor 6 (ArticleListByCursor 0 w).2 = (Return (Ok page2), w'') ∧
    (of_row <$> below 10 MaxInt32 sample.fifteen) ++ page2
      = of_row <$> below 20 MaxInt32 sample.fifteen.
Proof.
  intros w.
  apply (consecutive_pages w (ArticleListByCursor 0 w).2 0
           (of_row <$> below 10 MaxInt32 sample.fifteen)
           (of_row (mkArticleRow 6 "title" "body" 100 100 None))).
  - apply healthy_reliable.
  - exact fifteen_unique.
  - vm_compute. reflexivity.
  - vm_compute. reflexivity.
  - done.
Defined.

(** A row above all the others comes first in descending order. *)
Lemma sorted_head_max (l : list ArticleRow) x :
  StronglySorted id_desc l → x ∈ l →
  (∀ y, y ∈ l → y = x ∨ r_id y < r_id x) →
  ∃ l', l = x :: l'.
Proof.
  intros Hs Hx Hmax. destruct l as [|y l']; [by apply elem_of_nil in Hx|].
  apply StronglySorted_inv in Hs as [_ Hy].
  destruct (Hmax y) as [->|Hlt]; [by left | by exists l' |].
  apply elem_of_cons in Hx as [->|Hx]; [by exists l'|].
  rewrite Forall_forall in Hy. apply Hy in Hx. unfold id_desc in Hx. lia.
Qed.

(** X15. After a successful Create, the first page (cursor 0) starts with
    the new article when its identity is below MaxInt32; an article whose
    identity is MaxInt32 or more is not on the first page at all. *)
Theorem created_article_and_the_first_page
    (w : World) (article : ptr) (a : Article.t) :
  wf_DB (db w) →
  healthy 4 w →
  heap w !! article = Some a →
  ∃ res w' page w'',
    ArticleCreate article w = (Return (Ok res), w') ∧
    ArticleListByCursor 0 w' = (Return (Ok page), w'') ∧
    (LastInsertId res < MaxInt32 →
       head page = Some {| Article.ID := LastInsertId res;
                           Article.Title := Article.Title a;
                           Article.Body := Article.Body a;
                           Article.Created := clock w;
                           Article.Updated := clock w;
                           Article.Writer := Writer.zero;
                           Article.WriterName := "";
                           Article.Tags := [] |}) ∧
    (MaxInt32 ≤ LastInsertId res →
       ∀ x, x ∈ page → Article.ID x ≠ LastInsertId res).
Proof.
  intros Hwf H Ha.
  destruct (ArticleCreate_healthy w article a) as (w' & Hc & Hdb & Hf & Hn);
    [intros i Hi; apply H; lia | done |].
  set (insert := InsertArticle (Article.Title a) (Article.Body a)
                               (clock w) (clock w)) in *.
  exists (exec insert (db w)).2, w'.
  unfold ArticleListByCursor. rewrite bool_decide_eq_true_2 by done.
  rewrite Select_healthy, scan_all_rows by (rewrite Hf, Hn; by eapply healthy_3).
  do 2 eexists. split; [exact Hc|]. split; [reflexivity|].
  change (LastInsertId (exec insert (db w)).2) with (next_id (db w)).
  rewrite Hdb. cbn [run exec fst set_articles articles].
  set (new := mkArticleRow (next_id (db w)) (Article.Title a) (Article.Body a)
                           (clock w) (clock w) None).
  set (S := merge_sort id_desc _). split.
  - intros Hsmall.
    assert (∀ y, y ∈ S ↔ r_id y < MaxInt32 ∧ y ∈ articles (db w) ++ [new])
      as HS.
    { intros y. unfold S. by rewrite merge_sort_Permutation, list_elem_of_filter. }
    destruct (sorted_head_max S new) as [l' ->].
    + apply StronglySorted_merge_sort; apply _.
    + apply HS. split; [done|]. apply elem_of_app. right.
      by apply list_elem_of_singleton.
    + intros y Hy. apply HS in Hy as [_ Hy].
      apply elem_of_app in Hy as [Hy|Hy].
      * right. unfold wf_DB in Hwf. rewrite Forall_forall in Hwf.
        by apply Hwf.
      * left. by apply list_elem_of_singleton in Hy.
    + done.
  - intros Hbig x Hx. apply list_elem_of_fmap in Hx as (r & -> & Hr).
    apply subseteq_take in Hr. unfold S in Hr.
    rewrite merge_sort_Permutation in Hr.
    apply list_elem_of_filter in Hr as [Hr _]. cbn. lia.
Qed.

Lemma created_article_and_the_first_page_witness :
  (∃ res w' page w'',
     ArticleCreate 1%positive (sample.world sample.fifteen 200 sample.reliable)
       = (Return (Ok res), w') ∧
     ArticleListByCursor 0 w' = (Return (Ok page), w'') ∧
     head page = Some {| Article.ID := LastInsertId res;
                         Article.Title := "Hello again";
                         Article.Body := "second thoughts";
                         Article.Created := 200;
                         Article.Updated := 200;
                         Article.Writer := Writer.zero;
                         Article.WriterName := "";
                         Article.Tags := [] |}) ∧
  (∃ res w' page w'',
     ArticleCreate 1%positive (sample.world sample.late 200 sample.reliable)
       = (Return (Ok res), w') ∧
     ArticleListByCursor 0 w' = (Return (Ok page), w'') ∧
     ∀ x, x ∈ page → Article.ID x ≠ LastInsertId res).
Proof.
  split.
  - destruct (created_article_and_the_first_page
                (sample.world sample.fifteen 200 sample.reliable)
                1%positive sample.draft)
      as (res & w' & page & w'' & Hc & Hl & Hhead & _).
    + unfold wf_DB. apply (bool_decide_unpack _). vm_compute. exact I.
    + apply healthy_reliable.
    + reflexivity.
    + exists res, w', page, w''. split; [exact Hc|]. split; [exact Hl|].
      apply Hhead.
      assert (res = {| LastInsertId := 16; RowsAffected := 1 |}) as ->; [|done].
      vm_compute in Hc. by injection Hc as <- _.
  - destruct (created_article_and_the_first_page
                (sample.world sample.late 200 sample.reliable)
                1%positive sample.draft)
      as (res & w' & page & w'' & Hc & Hl & _ & Hmissing).
    + unfold wf_DB. apply (bool_decide_unpack _). vm_compute. exact I.
    + apply healthy_reliable.
    + reflexivity.
    + exists res, w', page, w''. split; [exact Hc|]. split; [exact Hl|].
      apply Hmissing.
      assert (res = {| LastInsertId := 2147483647; RowsAffected := 1 |}) as ->;
        [|done].
      vm_compute in Hc. by injection Hc as <- _.
Defined.

(* ===================================================================== *)
(** ** Failures of the closing call *)
(* ===================================================================== *)

(** X17. The value of tx.Rollback() is dropped: when the statement fails
    with [e] and the rollback fails as well, Create, Update and Delete still
    return [e], the committed database is what it was and no transaction is
    left open. *)
Theorem rollback_failure_is_not_reported
    (w : World) (article : ptr) (a : Article.t) (id : Z) (e e' : error) :
  fault_at w (ncalls w) = None →
  fault_at w (S (ncalls w)) = Some e →
  fault_at w (S (S (ncalls w))) = Some e' →
  heap w !! article = Some a →
  let c := ArticleCreate article w in
  let u := ArticleUpdate article w in
  let d := ArticleDelete id w in
  c.1 = Return (Err e) ∧ u.1 = Return (Err e) ∧ d.1 = Return (Some e) ∧
  db c.2 = db w ∧ db u.2 = db w ∧ db d.2 = db w ∧
  tx c.2 = None ∧ tx u.2 = None ∧ tx d.2 = None.
Proof.
  intros H0 H1 H2 Ha c u d. subst c u d.
  pose proof (ArticleCreate_atomic w article a H0 Ha) as Hc.
  pose proof (ArticleUpdate_atomic w article a H0 Ha) as Hu.
  pose proof (ArticleDelete_atomic w id H0) as Hd.
  unfold atomic in Hc, Hu, Hd. rewrite H1 in Hc, Hu, Hd.
  destruct Hc as (wc & -> & Hcd & Hct & _).
  destruct Hu as (wu & -> & Hud & Hut & _).
  destruct Hd as (wd & -> & Hdd & Hdt & _).
  done.
Qed.

Lemma rollback_failure_is_not_reported_witness :
  let faults := λ i : nat,
    match i with
    | 1%nat => Some (ErrBackend 1205)
    | 2%nat => Some (ErrBackend 2013)
    | _ => None
    end in
  let w := sample.world sample.blog 200 faults in
  (ArticleCreate 1%positive w).1 = Return (Err (ErrBackend 1205)) ∧
  (ArticleUpdate 1%positive w).1 = Return (Err (ErrBackend 1205)) ∧
  (ArticleDelete 3 w).1 = Return (Some (ErrBackend 1205)) ∧
  db (ArticleCreate 1%positive w).2 = sample.blog ∧
  db (ArticleUpdate 1%positive w).2 = sample.blog ∧
  db (ArticleDelete 3 w).2 = sample.blog.
Proof.
  intros faults w.
  destruct (rollback_failure_is_not_reported w 1%positive sample.draft 3
              (ErrBackend 1205) (ErrBackend 2013) eq_refl eq_refl eq_refl eq_refl)
    as (Hc & Hu & Hd & Hcd & Hud & Hdd & _).
  exact (conj Hc (conj Hu (conj Hd (conj Hcd (conj Hud Hdd))))).
Defined.

(** X18. The value of tx.Commit() is dropped by Create: when the commit
    fails, Create still reports an identity and no error, and GetByID on
    that identity answers sql.ErrNoRows, the row never having been
    committed. *)
Theorem create_may_report_an_identity_that_is_not_stored
    (w : World) (article : ptr) (a : Article.t) (e : error) :
  wf_DB (db w) →
  healthy 2 w →
  fault_at w (S (S (ncalls w))) = Some e →
  fault_at w (S (S (S (ncalls w)))) = None →
  heap w !! article = Some a →
  ∃ res w',
    ArticleCreate article w = (Return (Ok res), w') ∧
    LastInsertId res = next_id (db w) ∧
    (ArticleGetByID (LastInsertId res) w').1 = Return (Err ErrNoRows).
Proof.
  intros Hwf H He H3 Ha.
  pose proof (healthy_0 _ _ H) as H0. pose proof (healthy_1 _ _ H) as H1.
  unfold ArticleGetByID.
  assert (∃ res w', ArticleCreate article w = (Return (Ok res), w') ∧
                    LastInsertId res = next_id (db w) ∧ db w' = db w ∧
                    fault_at w' (ncalls w') = None) as (res & w' & Hc & Hid & Hdb & Hf).
  { step. rewrite Ha. cbn. rewrite lookup_insert_eq. cbn. rewrite H0. cbn.
    rewrite lookup_insert_eq. cbn. rewrite H1. cbn. rewrite He. cbn.
    do 2 eexists. split; [reflexivity|]. done. }
  exists res, w'. split; [exact Hc|]. split; [exact Hid|].
  rewrite Get_healthy by done. rewrite Hid, Hdb. cbn [fst run].
  rewrite filter_none; [done|].
  intros r Hr. rewrite has_id_true. by apply wf_fresh.
Qed.

Lemma create_may_report_an_identity_that_is_not_stored_witness :
  ∃ res w',
    ArticleCreate 1%positive
      (sample.world sample.blog 200 (sample.failing 2 (ErrBackend 2013)))
      = (Return (Ok res), w') ∧
    LastInsertId res = 5 ∧
    (ArticleGetByID (LastInsertId res) w').1 = Return (Err ErrNoRows).
Proof.
  apply (create_may_report_an_identity_that_is_not_stored
           (sample.world sample.blog 200 (sample.failing 2 (ErrBackend 2013)))
           1%positive sample.draft (ErrBackend 2013)).
  - unfold wf_DB. cbn. repeat constructor.
  - intros i Hi. destruct i as [|[|i]]; [reflexivity | reflexivity | lia].
  - reflexivity.
  - reflexivity.
  - reflexivity.
Defined.
